(** * Veloura: the component model of [public/scripts/script.js]

    A shallow embedding of the script's classes: [BaseComponent] (state
    snapshot with subscribers), [Cart], [Notification] and [FormValidator],
    together with the part of [VelouraApp] that feeds the cart
    ([handleAddToCart]).

    Conventions.
    - A JavaScript string is the list of its UTF-16 code units.
    - A JavaScript number is an IEEE-754 binary64 value, taken from the
      standard library's [SpecFloat] (one NaN, signed zeros, infinities,
      round to nearest even).
    - An object used as a dictionary (a state snapshot, the [errors] object)
      is a [gmap] from property name to value.
    - A quantity is an integer-valued number, kept as an integer; its
      increment is written out as the number's ([Cart.incr]).
    - Effects that leave a component (subscriber calls, toasts put in the
      page, timers handed to [setTimeout]) are recorded in the component's
      record, in the order in which the code performs them. Lines written to
      the console are left out.
    - What the clock returns ([Date.now()], [new Date()]) is an argument of
      the function that reads it.
    - The cart is modelled twice: by value ([Cart]), and with objects and
      references in a heap ([Heap]), where aliasing shows. The two are proved
      to agree ([heap_cart_refines_cart]). *)

From Stdlib Require Import ZArith NArith List Bool Ascii String SpecFloat.
From stdpp Require Import base decidable option list gmap strings fin_maps.

Local Open Scope Z_scope.

(** ** Strings *)

Definition jsstring := list N.

(** The code units of an ASCII literal. *)
Definition str (s : string) : jsstring :=
  (λ a, N_of_ascii a) <$> list_ascii_of_string s.

(** White space and line terminators: what [String.prototype.trim] removes
    and what the regular-expression class [\s] matches. *)
Definition is_space (c : N) : bool :=
  (((9 <=? c) && (c <=? 13)) || (c =? 32) || (c =? 160) || (c =? 5760)
   || ((8192 <=? c) && (c <=? 8202)) || (c =? 8232) || (c =? 8233)
   || (c =? 8239) || (c =? 8287) || (c =? 12288) || (c =? 65279))%N.

Definition is_digit (c : N) : bool := ((48 <=? c) && (c <=? 57))%N.

Definition full_stop : N := 46%N.
Definition commercial_at : N := 64%N.
Definition plus_sign : N := 43%N.
Definition minus_sign : N := 45%N.

Fixpoint trimStart (s : jsstring) : jsstring :=
  match s with
  | c :: s' => if is_space c then trimStart s' else s
  | [] => []
  end.

Definition trimEnd (s : jsstring) : jsstring := reverse (trimStart (reverse s)).

(** [s.trim()] *)
Definition trim (s : jsstring) : jsstring := trimEnd (trimStart s).

(** The longest prefix of [s] whose code units satisfy [p], and the rest. *)
Fixpoint span (p : N → bool) (s : jsstring) : jsstring * jsstring :=
  match s with
  | c :: s' => if p c then let '(a, b) := span p s' in (c :: a, b) else ([], s)
  | [] => ([], [])
  end.

Fixpoint starts_with (pre s : jsstring) : bool :=
  match pre, s with
  | [], _ => true
  | a :: pre', b :: s' => (a =? b)%N && starts_with pre' s'
  | _ :: _, [] => false
  end.

(** ** Numbers *)

Module Number.
Definition number := spec_float.

Definition prec : Z := 53.
Definition emax : Z := 1024.

Definition NaN : number := S754_nan.
Definition zero : number := S754_zero false.

(** [x + y] and [x * y] on numbers. *)
Definition add : number → number → number := SFadd prec emax.
Definition mul : number → number → number := SFmul prec emax.

(** The number nearest to an integer. *)
Definition of_Z (z : Z) : number := binary_normalize prec emax z 0 false.

(** The number nearest to [(-1)^s * n / d]. *)
Definition of_ratio (s : bool) (n d : positive) : number :=
  SFdiv prec emax (S754_finite s n 0) (S754_finite false d 0).

(** The number nearest to [(-1)^s * m * 10^e], for [0 <= m]. *)
Definition of_decimal (s : bool) (m e : Z) : number :=
  match m with
  | Zpos n =>
      match e with
      | Zneg k => of_ratio s n (10 ^ k)%positive
      | _ => of_ratio s (n * Z.to_pos (10 ^ e))%positive 1
      end
  | _ => S754_zero s
  end.
End Number.
Export Number.

(** ** [parseFloat] *)

(** The value of a run of decimal digits. *)
Definition digits_value (ds : jsstring) : Z :=
  foldl (λ acc c, 10 * acc + (Z.of_N c - 48)) 0 ds.

(** What a [StrUnsignedDecimalLiteral] denotes. *)
Inductive literal :=
  | LitInfinity
  | LitDecimal (m : Z) (e : Z).

(** The digits of a [SignedInteger] at the head of [s], with their sign. *)
Definition signed_integer (s : jsstring) : Z :=
  match s with
  | c :: s' =>
      if (c =? plus_sign)%N then digits_value (span is_digit s').1
      else if (c =? minus_sign)%N then - digits_value (span is_digit s').1
      else digits_value (span is_digit s).1
  | [] => 0
  end.

(** Whether [s] starts with a [SignedInteger]: an optional sign and a digit. *)
Definition starts_signed_integer (s : jsstring) : bool :=
  match s with
  | c :: s' =>
      if ((c =? plus_sign) || (c =? minus_sign))%N
      then match s' with d :: _ => is_digit d | [] => false end
      else is_digit c
  | [] => false
  end.

(** [ExponentPart], when one is present at the head of [s]: [e] or [E] and a
    [SignedInteger]. Otherwise the exponent is 0 and nothing is consumed. *)
Definition exponent_part (s : jsstring) : Z :=
  match s with
  | c :: s' =>
      if ((c =? 101) || (c =? 69))%N && starts_signed_integer s'
      then signed_integer s'
      else 0
  | [] => 0
  end.

(** The longest prefix of [s] that is a [StrUnsignedDecimalLiteral]:
    [Infinity], digits with an optional fraction, or a full stop and digits,
    the last two with an optional exponent. *)
Definition unsigned_literal (s : jsstring) : option literal :=
  if starts_with (str "Infinity") s then Some LitInfinity
  else
    let ip := (span is_digit s).1 in
    let r1 := (span is_digit s).2 in
    let fp := (span is_digit (tail r1)).1 in
    let r3 := (span is_digit (tail r1)).2 in
    let dot := match r1 with c :: _ => (c =? full_stop)%N | [] => false end in
    match ip with
    | [] =>
        if dot && negb (bool_decide (fp = []))
        then Some (LitDecimal (digits_value fp)
                              (exponent_part r3 - Z.of_nat (length fp)))
        else None
    | _ :: _ =>
        if dot
        then Some (LitDecimal (digits_value (ip ++ fp))
                              (exponent_part r3 - Z.of_nat (length fp)))
        else Some (LitDecimal (digits_value ip) (exponent_part r1))
    end.

Definition literal_value (s : bool) (l : literal) : number :=
  match l with
  | LitInfinity => S754_infinity s
  | LitDecimal m e => of_decimal s m e
  end.

(** [parseFloat(s)] for a string [s]: leading white space is skipped, the
    longest prefix that is a [StrDecimalLiteral] (an optional sign and a
    [StrUnsignedDecimalLiteral]) is read, and its value is rounded to the
    nearest number; NaN when there is no such prefix. *)
Definition parseFloat (s : jsstring) : number :=
  let t := trimStart s in
  let sign := match t with c :: _ => (c =? minus_sign)%N | [] => false end in
  let signed :=
    match t with c :: _ => ((c =? plus_sign) || (c =? minus_sign))%N | [] => false end in
  from_option (literal_value sign) NaN
              (unsigned_literal (if signed then tail t else t)).

(** ** [BaseComponent] *)

Module Base.
Section BaseComponent.
(** [V]: the values a snapshot holds; [O]: the subscribers. *)
Context {V O : Type}.

Record BaseComponent := mk {
  name : jsstring;
  state : gmap string V;
  observers : list O;
  (** Every call [observer(this.state)] made so far, oldest first. *)
  calls : list (O * gmap string V)
}.

(** [constructor(name)] *)
Definition new (nm : jsstring) : BaseComponent :=
  {| name := nm; state := ∅; observers := []; calls := [] |}.

(** [this.observers.push(observer)] *)
Definition subscribe (observer : O) (c : BaseComponent) : BaseComponent :=
  {| name := name c; state := state c;
     observers := observers c ++ [observer]; calls := calls c |}.

(** [this.observers.forEach(observer => observer(this.state))] *)
Definition notify (c : BaseComponent) : BaseComponent :=
  {| name := name c; state := state c; observers := observers c;
     calls := calls c ++ ((λ observer, (observer, state c)) <$> observers c) |}.

(** [this.state = { ...this.state, ...newState }; this.notify()] *)
Definition setState (newState : gmap string V) (c : BaseComponent)
  : BaseComponent :=
  notify {| name := name c; state := newState ∪ state c;
            observers := observers c; calls := calls c |}.

(** [{ ...this.state }], as a value. The identity of the returned object
    is the subject of the [Heap] model further down. *)
Definition getState (c : BaseComponent) : gmap string V := state c.
End BaseComponent.

Arguments BaseComponent : clear implicits.
End Base.

(** ** [Cart] *)

Module Cart.
(** The argument of [addItem]; [handleAddToCart] is its only caller and
    builds [{ name, price }] from two strings. *)
Record Product := { p_name : jsstring; p_price : jsstring }.

(** An element of [this.items]: [{ ...product, quantity }]. The quantity is
    an integer-valued number that starts at 1. *)
Record CartItem := { name : jsstring; price : jsstring; quantity : Z }.

#[global] Instance CartItem_eq_dec : EqDecision CartItem.
Proof. solve_decision. Defined.

(** [quantity += 1] on an integer-valued number: exact below 2^53, where
    the sum rounds back to 2^53. *)
Definition incr (q : Z) : Z := if q <? 2 ^ 53 then q + 1 else q.

(** What the snapshot of a cart holds under its keys. *)
Inductive value :=
  | VItems (l : list CartItem)
  | VNumber (x : number).

Record Cart {O : Type} := mk {
  base : Base.BaseComponent value O;
  items : list CartItem;
  totalPrice : number
}.
Arguments Cart : clear implicits.

Section Ops.
Context {O : Type}.
Implicit Types (c : Cart O) (product : Product).

(** [super('Cart'); this.items = []; this.totalPrice = 0] *)
Definition new : Cart O :=
  {| base := Base.new (str "Cart"); items := []; totalPrice := zero |}.

(** [items.reduce((total, item) => total + parseFloat(item.price) * item.quantity, 0)] *)
Definition total_of (l : list CartItem) : number :=
  foldl (λ total item,
           add total (mul (parseFloat (price item)) (of_Z (quantity item))))
        zero l.

(** [calculateTotal()] *)
Definition calculateTotal c : Cart O :=
  {| base := base c; items := items c; totalPrice := total_of (items c) |}.

(** [this.setState({ items: this.items, totalPrice: this.totalPrice })] *)
Definition publish c : Cart O :=
  {| base := Base.setState
               {[ "items" := VItems (items c);
                  "totalPrice" := VNumber (totalPrice c) ]} (base c);
     items := items c; totalPrice := totalPrice c |}.

Definition with_items (l : list CartItem) c : Cart O :=
  {| base := base c; items := l; totalPrice := totalPrice c |}.

(** [addItem(product)]: [find] returns the first item of that name, whose
    quantity is then incremented where it stands; without one a new item
    is pushed. *)
Definition addItem product c : Cart O :=
  let items' :=
    match list_find (λ item, name item = p_name product) (items c) with
    | Some (i, existingItem) =>
        <[ i := {| name := name existingItem; price := price existingItem;
                   quantity := incr (quantity existingItem) |} ]> (items c)
    | None =>
        items c ++ [ {| name := p_name product; price := p_price product;
                        quantity := 1 |} ]
    end in
  publish (calculateTotal (with_items items' c)).

(** [removeItem(productName)] *)
Definition removeItem (productName : jsstring) c : Cart O :=
  publish (calculateTotal
             (with_items (filter (λ item, name item ≠ productName) (items c)) c)).

(** [getItemCount()] *)
Definition getItemCount c : number :=
  foldl (λ count item, add count (of_Z (quantity item))) zero (items c).

(** [clearCart()] *)
Definition clearCart c : Cart O :=
  {| base := Base.setState
               {[ "items" := VItems []; "totalPrice" := VNumber zero ]} (base c);
     items := []; totalPrice := zero |}.

(** [getCartData()] *)
Definition getCartData c : list CartItem * number * number :=
  (items c, totalPrice c, getItemCount c).
End Ops.

(** A call of the cart from outside. *)
Inductive op :=
  | AddItem (product : Product)
  | RemoveItem (productName : jsstring)
  | ClearCart.

Definition step {O} (c : Cart O) (o : op) : Cart O :=
  match o with
  | AddItem product => addItem product c
  | RemoveItem productName => removeItem productName c
  | ClearCart => clearCart c
  end.

(** The cart after a sequence of calls, first call first. *)
Definition run {O} (ops : list op) (c : Cart O) : Cart O := foldl step c ops.

End Cart.

(** ** Plain objects as tables *)

(** The properties an object literal inherits from [Object.prototype]. For
    such a key [obj[key]] is a function (an object for [__proto__]) even when
    [obj] has no property of its own under it. *)
Definition object_prototype_properties : list jsstring :=
  [ str "constructor"; str "__defineGetter__"; str "__defineSetter__";
    str "hasOwnProperty"; str "__lookupGetter__"; str "__lookupSetter__";
    str "isPrototypeOf"; str "propertyIsEnumerable"; str "toString";
    str "valueOf"; str "__proto__"; str "toLocaleString" ].

Definition inherited (key : jsstring) : bool :=
  bool_decide (key ∈ object_prototype_properties).

(** How a call ends: normally with a value, or by throwing the [TypeError]
    of a call of something that is no function or of a property read on
    [null]. *)
Inductive completion (A : Type) :=
  | Normal (a : A)
  | TypeError.
Arguments Normal {A} a.
Arguments TypeError {A}.

(** [if (!table[key]) { table[key] = []; } table[key].push(x)] on a table
    whose own properties are arrays. Under an inherited key [table[key]] is
    there and has no [push]. *)
Definition push_under {X} (key : jsstring) (x : X) (table : gmap jsstring (list X))
  : completion (gmap jsstring (list X)) :=
  if inherited key then TypeError
  else Normal (<[ key := default [] (table !! key) ++ [x] ]> table).

(** ** [Notification] *)

Module Notification.
(** The object built by [show]; [id] is the reading of [Date.now()] and
    [timestamp] that of [new Date()], both in milliseconds. *)
Record NotificationRecord := {
  id : Z;
  message : jsstring;
  type : jsstring;
  timestamp : Z
}.

#[global] Instance NotificationRecord_eq_dec : EqDecision NotificationRecord.
Proof. solve_decision. Defined.

Record Notification {O : Type} := mk {
  base : Base.BaseComponent (list NotificationRecord) O;
  notifications : list NotificationRecord;
  (** The toasts [displayToast] has put in the page, with their duration. *)
  toasts : list (NotificationRecord * Z);
  (** The removals handed to [setTimeout] and not run yet: delay and id. *)
  timers : list (Z * Z)
}.
Arguments Notification : clear implicits.

Section Ops.
Context {O : Type}.
Implicit Types (n : Notification O).

(** [super('Notification'); this.notifications = []] *)
Definition new : Notification O :=
  {| base := Base.new (str "Notification"); notifications := [];
     toasts := []; timers := [] |}.

(** [this.setState({ notifications: this.notifications })] *)
Definition publish n : Notification O :=
  {| base := Base.setState {[ "notifications" := notifications n ]} (base n);
     notifications := notifications n; toasts := toasts n; timers := timers n |}.

(** [displayToast(notification, duration)], as far as the page is
    concerned: one more toast. *)
Definition displayToast (notification : NotificationRecord) (duration : Z) n
  : Notification O :=
  {| base := base n; notifications := notifications n;
     toasts := toasts n ++ [(notification, duration)]; timers := timers n |}.

(** [show(message, type = 'info', duration = 3000)]. An argument left out
    is [None]; [now] and [date] are what [Date.now()] and [new Date()]
    return during the call. *)
Definition show (message : jsstring) (type : option jsstring)
    (duration : option Z) (now date : Z) n : Notification O :=
  let type := default (str "info") type in
  let duration := default 3000 duration in
  let notification :=
    {| id := now; message := message; type := type; timestamp := date |} in
  let n1 := {| base := base n;
               notifications := notifications n ++ [notification];
               toasts := toasts n; timers := timers n |} in
  let n2 := displayToast notification duration (publish n1) in
  {| base := base n2; notifications := notifications n2; toasts := toasts n2;
     timers := timers n2 ++ [(duration, id notification)] |}.

(** [remove(notificationId)] *)
Definition remove (notificationId : Z) n : Notification O :=
  publish {| base := base n;
             notifications :=
               filter (λ x, id x ≠ notificationId) (notifications n);
             toasts := toasts n; timers := timers n |}.

(** The shortcuts. *)
Definition success message duration := show message (Some (str "success")) duration.
Definition error message duration := show message (Some (str "error")) duration.
Definition warning message duration := show message (Some (str "warning")) duration.
Definition info message duration := show message (Some (str "info")) duration.

(** The event loop runs the [i]-th pending timer: its callback is
    [() => this.remove(notification.id)]. *)
Definition fire (i : nat) n : Notification O :=
  match timers n !! i with
  | Some (_, notificationId) =>
      remove notificationId
             {| base := base n; notifications := notifications n;
                toasts := toasts n; timers := delete i (timers n) |}
  | None => n
  end.
End Ops.

(** What can happen to a notification centre. *)
Inductive op :=
  | Show (message : jsstring) (type : option jsstring) (duration : option Z)
         (now date : Z)
  | Success (message : jsstring) (duration : option Z) (now date : Z)
  | Error (message : jsstring) (duration : option Z) (now date : Z)
  | Warning (message : jsstring) (duration : option Z) (now date : Z)
  | Info (message : jsstring) (duration : option Z) (now date : Z)
  | Remove (notificationId : Z)
  | Fire (i : nat).

Definition step {O} (n : Notification O) (o : op) : Notification O :=
  match o with
  | Show message type duration now date => show message type duration now date n
  | Success message duration now date => success message duration now date n
  | Error message duration now date => error message duration now date n
  | Warning message duration now date => warning message duration now date n
  | Info message duration now date => info message duration now date n
  | Remove notificationId => remove notificationId n
  | Fire i => fire i n
  end.

Definition run {O} (ops : list op) (n : Notification O) : Notification O :=
  foldl step n ops.


(** What [getIcon] returns: the markup of an icon, or, for a type named like
    a property of [Object.prototype], that inherited value. *)
Inductive icon :=
  | Icon (html : jsstring)
  | InheritedValue (property : jsstring).

(** [<i class="fas fa-NAME"></i>] *)
Definition fa (name : string) : jsstring :=
  str "<i class=" ++ [34%N] ++ str "fas fa-" ++ str name ++ [34%N] ++ str "></i>".

(** The [icons] table of [getIcon]. *)
Definition icons : list (jsstring * jsstring) :=
  [ (str "success", fa "check-circle"); (str "error", fa "exclamation-circle");
    (str "warning", fa "warning"); (str "info", fa "info-circle") ].

(** [getIcon(type)]: [icons[type] || icons.info]. The four markups are
    non-empty strings, hence truthy. *)
Definition getIcon (type : jsstring) : icon :=
  match (list_to_map icons : gmap jsstring jsstring) !! type with
  | Some html => Icon html
  | None => if inherited type then InheritedValue type else Icon (fa "info-circle")
  end.
End Notification.

(** ** [Analytics] *)

Module Analytics.
Record Event := {
  name : jsstring;
  data : list (string * jsstring);
  timestamp : Z;
  sessionDuration : Z
}.

Record Analytics {O : Type} := mk {
  base : Base.BaseComponent (list Event) O;
  events : list Event;
  sessionStart : Z
}.
Arguments Analytics : clear implicits.

Section Ops.
Context {O : Type}.
Implicit Types (a : Analytics O).

(** [super('Analytics'); this.events = []; this.sessionStart = new Date()] *)
Definition new (date : Z) : Analytics O :=
  {| base := Base.new (str "Analytics"); events := []; sessionStart := date |}.

(** [trackEvent(eventName, eventData)]; [date] and [now] are the two
    clock readings of the call, in that order. *)
Definition trackEvent (eventName : jsstring) (eventData : list (string * jsstring))
    (date now : Z) a : Analytics O :=
  let event := {| name := eventName; data := eventData; timestamp := date;
                  sessionDuration := now - sessionStart a |} in
  let events' := events a ++ [event] in
  {| base := Base.setState {[ "events" := events' ]} (base a);
     events := events'; sessionStart := sessionStart a |}.

(** [trackProductInteraction(productName, action)] *)
Definition trackProductInteraction (productName action : jsstring) :=
  trackEvent (str "product_interaction")
             [("productName"%string, productName); ("action"%string, action)].
End Ops.
(** [trackPageView(section)] *)
Definition trackPageView {O} (section : jsstring) :=
  trackEvent (O := O) (str "page_view") [("section"%string, section)].

(** [getReport()]; [now] is the clock reading of the call. *)
Definition getReport {O} (now : Z) (a : Analytics O) : nat * Z * list Event :=
  (length (events a), now - sessionStart a, events a).

(** A call that records something; [date] and [now] are its two clock
    readings. *)
Inductive op :=
  | TrackEvent (eventName : jsstring) (eventData : list (string * jsstring)) (date now : Z)
  | TrackPageView (section : jsstring) (date now : Z)
  | TrackProductInteraction (productName action : jsstring) (date now : Z).

Definition step {O} (a : Analytics O) (o : op) : Analytics O :=
  match o with
  | TrackEvent eventName eventData date now => trackEvent eventName eventData date now a
  | TrackPageView section date now => trackPageView section date now a
  | TrackProductInteraction productName action date now =>
      trackProductInteraction productName action date now a
  end.

Definition run {O} (ops : list op) (a : Analytics O) : Analytics O := foldl step a ops.
End Analytics.

(** ** Regular expressions *)

(** The fragment of the pattern language used by the script: classes of code
    units, sequence, alternation and repetition, matched by derivatives. *)
Module Regex.
Inductive regex :=
  | Void
  | Eps
  | Class (p : N → bool)
  | Seq (r1 r2 : regex)
  | Alt (r1 r2 : regex)
  | Star (r : regex).

(** [r+] *)
Definition Plus (r : regex) : regex := Seq r (Star r).

Fixpoint nullable (r : regex) : bool :=
  match r with
  | Void => false
  | Eps => true
  | Class _ => false
  | Seq r1 r2 => nullable r1 && nullable r2
  | Alt r1 r2 => nullable r1 || nullable r2
  | Star _ => true
  end.

Fixpoint deriv (c : N) (r : regex) : regex :=
  match r with
  | Void => Void
  | Eps => Void
  | Class p => if p c then Eps else Void
  | Seq r1 r2 =>
      if nullable r1 then Alt (Seq (deriv c r1) r2) (deriv c r2)
      else Seq (deriv c r1) r2
  | Alt r1 r2 => Alt (deriv c r1) (deriv c r2)
  | Star r' => Seq (deriv c r') (Star r')
  end.

(** [/^r$/.test(s)] *)
Definition test (r : regex) (s : jsstring) : bool :=
  nullable (foldl (λ r c, deriv c r) r s).

(** The words of a regular expression, for reference. *)
Inductive matches : regex → jsstring → Prop :=
  | m_eps : matches Eps []
  | m_class p c : p c = true → matches (Class p) [c]
  | m_seq r1 r2 s1 s2 : matches r1 s1 → matches r2 s2 → matches (Seq r1 r2) (s1 ++ s2)
  | m_alt_l r1 r2 s : matches r1 s → matches (Alt r1 r2) s
  | m_alt_r r1 r2 s : matches r2 s → matches (Alt r1 r2) s
  | m_star_nil r : matches (Star r) []
  | m_star_cons r s1 s2 : matches r s1 → matches (Star r) s2 → matches (Star r) (s1 ++ s2).
End Regex.

(** ** [FormValidator] *)

Module FormValidator.
Import Regex.

(** [[^\s@]] *)
Definition not_space_at (c : N) : bool := negb (is_space c || (c =? commercial_at)%N).

(** [/^[^\s@]+@[^\s@]+\.[^\s@]+$/] *)
Definition emailRegex : regex :=
  Seq (Plus (Class not_space_at))
      (Seq (Class (N.eqb commercial_at))
           (Seq (Plus (Class not_space_at))
                (Seq (Class (N.eqb full_stop))
                     (Plus (Class not_space_at))))).

(** [validateEmail(email)] *)
Definition validateEmail (email : jsstring) : bool := test emailRegex email.

(** [validateRequired(value)]: [value.trim().length > 0] *)
Definition validateRequired (value : jsstring) : bool :=
  bool_decide (0 < length (trim value))%nat.

(** [validateMinLength(value, minLength)] *)
Definition validateMinLength (value : jsstring) (minLength : nat) : bool :=
  bool_decide (minLength ≤ length value)%nat.

Definition invalid_email : jsstring := str "Invalid email format".
Definition required : jsstring := str "This field is required".

(** One turn of the loop over [Object.entries(formData)]. *)
Definition check (errors : gmap jsstring jsstring) (entry : jsstring * jsstring)
  : gmap jsstring jsstring :=
  let '(fieldName, value) := entry in
  let errors :=
    if decide (fieldName = str "email") then
      if validateEmail value then errors
      else <[ fieldName := invalid_email ]> errors
    else errors in
  if validateRequired value then errors
  else <[ fieldName := required ]> errors.

Record Result := { isValid : bool; errors : gmap jsstring jsstring }.

(** [validate(formData)]; [formData] is given by its entries, in the order
    in which [Object.entries] lists them. *)
Definition validate (formData : list (jsstring * jsstring)) : Result :=
  let errors := foldl check ∅ formData in
  {| isValid := bool_decide (size errors = 0%nat); errors := errors |}.
(** [addRule(fieldName, rule)] on [this.rules]. *)
Definition addRule {R} (fieldName : jsstring) (rule : R) (rules : gmap jsstring (list R))
  : completion (gmap jsstring (list R)) :=
  push_under fieldName rule rules.
End FormValidator.

(** ** [VelouraApp] *)

Module App.
(** The element [#cart-count] of the page. *)
Record Badge := { textContent : number; display : string }.

Record VelouraApp {O : Type} := mk {
  cart : Cart.Cart O;
  notification : Notification.Notification O;
  analytics : Analytics.Analytics O;
  (** [document.getElementById('cart-count')], when the page has one. *)
  cartCount : option Badge
}.
Arguments VelouraApp : clear implicits.

(** [String(productPrice).replace(/[^0-9.]/g, '')] *)
Definition priceClean (productPrice : jsstring) : jsstring :=
  filter (λ c, is_digit c || (c =? full_stop)%N) productPrice.

(** The text of the toast: three code units, a space, the name and
    [" added to cart!"]. *)
Definition added_to_cart (productName : jsstring) : jsstring :=
  [226; 339; 168; 32]%N ++ productName ++ str " added to cart!".

Section Ops.
Context {O : Type}.
Implicit Types (app : VelouraApp O).

(** [updateCartBadge()] *)
Definition updateCartBadge app : VelouraApp O :=
  {| cart := cart app; notification := notification app;
     analytics := analytics app;
     cartCount :=
       (λ _, let count := Cart.getItemCount (cart app) in
             {| textContent := count;
                display := if SFltb zero count then "flex" else "none" |})
         <$> cartCount app |}.

(** [new VelouraApp()] on a page whose [#cart-count] element, if any, is
    [badge]: the four components, then [init()], which tracks
    ['app_initialized'] and updates the badge. [clock k] is the [k]-th
    clock reading taken during the call. *)
Definition new (clock : nat → Z) (badge : option Badge) : VelouraApp O :=
  updateCartBadge
    {| cart := Cart.new;
       notification := Notification.new;
       analytics :=
         Analytics.trackEvent (str "app_initialized") []
                              (clock 1%nat) (clock 2%nat)
                              (Analytics.new (clock 0%nat));
       cartCount := badge |}.

(** [handleAddToCart(productName, productPrice)]; [clock k] is the [k]-th
    clock reading taken during the call. *)
Definition handleAddToCart (productName productPrice : jsstring)
    (clock : nat → Z) app : VelouraApp O :=
  let product := {| Cart.p_name := productName;
                    Cart.p_price := priceClean productPrice |} in
  updateCartBadge
    {| cart := Cart.addItem product (cart app);
       notification :=
         Notification.success (added_to_cart productName) None
                              (clock 0%nat) (clock 1%nat) (notification app);
       analytics :=
         Analytics.trackProductInteraction productName (str "add_to_cart")
                              (clock 2%nat) (clock 3%nat) (analytics app);
       cartCount := cartCount app |}.
End Ops.
End App.

(** ** [EventHandler] *)

Module EventHandler.
(** [O]: the callbacks, compared by identity; [D]: what [emit] passes on. *)
Record EventHandler {O D : Type} := mk {
  eventListeners : gmap jsstring (list O);
  (** Every call [callback(data)] made so far, oldest first. *)
  calls : list (O * D)
}.
Arguments EventHandler : clear implicits.

Section Ops.
Context {O D : Type} `{!EqDecision O}.
Implicit Types (h : EventHandler O D).

(** [this.eventListeners = {}] *)
Definition new : EventHandler O D := {| eventListeners := ∅; calls := [] |}.

(** [on(eventName, callback)] *)
Definition on (eventName : jsstring) (callback : O) h : completion (EventHandler O D) :=
  match push_under eventName callback (eventListeners h) with
  | Normal table => Normal {| eventListeners := table; calls := calls h |}
  | TypeError => TypeError
  end.

(** [off(eventName, callback)]: under an inherited name the value found has
    no [filter]. *)
Definition off (eventName : jsstring) (callback : O) h : completion (EventHandler O D) :=
  if inherited eventName then TypeError
  else
    match eventListeners h !! eventName with
    | Some listeners =>
        Normal {| eventListeners :=
                    <[ eventName := filter (λ cb, cb ≠ callback) listeners ]>
                      (eventListeners h);
                  calls := calls h |}
    | None => Normal h
    end.

(** [emit(eventName, data)]: under an inherited name the value found has no
    [forEach]. *)
Definition emit (eventName : jsstring) (data : D) h : completion (EventHandler O D) :=
  if inherited eventName then TypeError
  else
    match eventListeners h !! eventName with
    | Some listeners =>
        Normal {| eventListeners := eventListeners h;
                  calls := calls h ++ ((λ callback, (callback, data)) <$> listeners) |}
    | None => Normal h
    end.

(** The listeners [emit] would call for an event. *)
Definition listeners_of (eventName : jsstring) h : list O :=
  default [] (eventListeners h !! eventName).
End Ops.
End EventHandler.

(** ** The page and its handlers *)

Module Page.
(** The application together with the parts of the page its handlers read
    and write: the value of [#email-input], when the page has that element,
    whether [#products] exists, and how often it was scrolled into view. *)
Record Page {O : Type} := mk {
  app : App.VelouraApp O;
  emailInput : option jsstring;
  productsSection : bool;
  scrolls : nat
}.
Arguments Page : clear implicits.

Definition cart_is_empty : jsstring := str "Your cart is empty. Start shopping!".
Definition explore_products : jsstring := str "Explore our amazing products!".
Definition enter_valid_email : jsstring := str "Please enter a valid email address".

(** The text of the toast of a subscription: four code units, a space, and
    the sentence with the address. *)
Definition subscribed_with (email : jsstring) : jsstring :=
  [240; 376; 381; 8240; 32]%N ++ str "Successfully subscribed with " ++ email ++ str "!".

Section Ops.
Context {O : Type}.
(** [String(x)] and [x.toFixed(2)] on numbers. *)
Context (toString toFixed2 : number → jsstring).
Implicit Types (p : Page O).

(** The text of the toast of [handleViewCart] for a cart that holds items. *)
Definition you_have (itemCount totalPrice : number) : jsstring :=
  [240; 376; 8250; 239; 184; 32]%N ++ str "You have " ++ toString itemCount
  ++ str " items in cart worth " ++ [226; 8218; 177]%N ++ toFixed2 totalPrice.

Definition with_app (a : App.VelouraApp O) p : Page O :=
  {| app := a; emailInput := emailInput p; productsSection := productsSection p;
     scrolls := scrolls p |}.

(** [new VelouraApp()] on a page. *)
Definition new (clock : nat → Z) (badge : option App.Badge)
    (input : option jsstring) (products : bool) : Page O :=
  {| app := App.new clock badge; emailInput := input; productsSection := products;
     scrolls := 0 |}.

(** The click on an add-to-cart button. *)
Definition handleAddToCart (productName productPrice : jsstring) (clock : nat → Z) p
  : Page O :=
  with_app (App.handleAddToCart productName productPrice clock (app p)) p.

(** [handleViewCart()]: the test is [cartData.itemCount === 0]. *)
Definition handleViewCart (clock : nat → Z) p : Page O :=
  let a := app p in
  let '(_, totalPrice, itemCount) := Cart.getCartData (App.cart a) in
  let show :=
    if SFeqb itemCount zero
    then Notification.info cart_is_empty None
    else Notification.success (you_have itemCount totalPrice) None in
  with_app {| App.cart := App.cart a;
              App.notification := show (clock 0%nat) (clock 1%nat) (App.notification a);
              App.analytics := App.analytics a;
              App.cartCount := App.cartCount a |} p.

(** [handleExplore()] *)
Definition handleExplore (clock : nat → Z) p : Page O :=
  let a := app p in
  let analytics :=
    Analytics.trackEvent (str "explore_clicked") [] (clock 0%nat) (clock 1%nat)
                         (App.analytics a) in
  if productsSection p then
    {| app := {| App.cart := App.cart a;
                 App.notification :=
                   Notification.info explore_products None (clock 2%nat) (clock 3%nat)
                                     (App.notification a);
                 App.analytics := analytics;
                 App.cartCount := App.cartCount a |};
       emailInput := emailInput p; productsSection := true;
       scrolls := S (scrolls p) |}
  else
    with_app {| App.cart := App.cart a; App.notification := App.notification a;
                App.analytics := analytics; App.cartCount := App.cartCount a |} p.

(** [handleSubscribe()]: [emailInput.value] is read without a test for the
    element. *)
Definition handleSubscribe (clock : nat → Z) p : completion (Page O) :=
  match emailInput p with
  | None => TypeError
  | Some value =>
      let a := app p in
      let email := trim value in
      if negb (FormValidator.validateEmail email) then
        Normal
          (with_app
             {| App.cart := App.cart a;
                App.notification :=
                  Notification.error enter_valid_email None (clock 0%nat) (clock 1%nat)
                                     (App.notification a);
                App.analytics :=
                  Analytics.trackEvent (str "newsletter_failed")
                                       [("email"%string, email)]
                                       (clock 2%nat) (clock 3%nat) (App.analytics a);
                App.cartCount := App.cartCount a |} p)
      else
        Normal
          {| app :=
               {| App.cart := App.cart a;
                  App.notification :=
                    Notification.success (subscribed_with email) None
                                         (clock 0%nat) (clock 1%nat) (App.notification a);
                  App.analytics :=
                    Analytics.trackEvent (str "newsletter_subscribed")
                                         [("email"%string, email)]
                                         (clock 2%nat) (clock 3%nat) (App.analytics a);
                  App.cartCount := App.cartCount a |};
             emailInput := Some [];
             productsSection := productsSection p; scrolls := scrolls p |}
  end.

(** [window.clearCart()]: [app.cart.clearCart()], and nothing else. *)
Definition clearCart p : Page O :=
  let a := app p in
  with_app {| App.cart := Cart.clearCart (App.cart a);
              App.notification := App.notification a;
              App.analytics := App.analytics a;
              App.cartCount := App.cartCount a |} p.

(** The visitor types into [#email-input], if the page has it. *)
Definition type_email (value : jsstring) p : Page O :=
  {| app := app p; emailInput := (λ _, value) <$> emailInput p;
     productsSection := productsSection p; scrolls := scrolls p |}.
End Ops.

(** What happens on the page, each with the clock readings of its handler. *)
Inductive event :=
  | AddToCart (productName productPrice : jsstring) (clock : nat → Z)
  | ViewCart (clock : nat → Z)
  | Explore (clock : nat → Z)
  | Subscribe (clock : nat → Z)
  | ClearCart
  | TypeEmail (value : jsstring).

(** One turn of the event loop; a handler that throws leaves the page as it
    was. *)
Definition step {O} (toString toFixed2 : number → jsstring) (p : Page O) (e : event)
  : Page O :=
  match e with
  | AddToCart productName productPrice clock =>
      handleAddToCart productName productPrice clock p
  | ViewCart clock => handleViewCart toString toFixed2 clock p
  | Explore clock => handleExplore clock p
  | Subscribe clock =>
      match handleSubscribe clock p with Normal p' => p' | TypeError => p end
  | ClearCart => clearCart p
  | TypeEmail value => type_email value p
  end.

Definition run {O} (toString toFixed2 : number → jsstring) (events : list event)
    (p : Page O) : Page O :=
  foldl (step toString toFixed2) p events.

(** The calls of the cart an event makes. *)
Definition cart_calls (e : event) : list Cart.op :=
  match e with
  | AddToCart productName productPrice _ =>
      [ Cart.AddItem {| Cart.p_name := productName;
                        Cart.p_price := App.priceClean productPrice |} ]
  | ClearCart => [ Cart.ClearCart ]
  | _ => []
  end.
End Page.

(** ** Objects and references

    The modules above treat a snapshot as a value. In the script a snapshot
    is an object, [this.items] is an array and its elements are objects, and
    what [setState] stores and [getState] returns are references to them.
    This module keeps the store explicit: every object lives in a heap cell,
    and a component, a snapshot slot and an array element hold locations. *)

Module Heap.
Definition loc := nat.

(** What a property of a snapshot holds. *)
Inductive value :=
  | VNumber (x : number)
  | VRef (l : loc).

Inductive cell :=
  | CItem (item : Cart.CartItem)
  | CArray (elems : list loc)
  | CObject (props : gmap string value).

Record heap := { cells : gmap loc cell; next : loc }.

Definition empty : heap := {| cells := ∅; next := 0%nat |}.

(** A new object. *)
Definition alloc (c : cell) (h : heap) : loc * heap :=
  (next h, {| cells := <[ next h := c ]> (cells h); next := S (next h) |}).

(** An assignment to an object that exists. *)
Definition store (l : loc) (c : cell) (h : heap) : heap :=
  {| cells := <[ l := c ]> (cells h); next := next h |}.

Definition item_at (h : heap) (l : loc) : option Cart.CartItem :=
  match cells h !! l with Some (CItem item) => Some item | _ => None end.

Definition array_at (h : heap) (l : loc) : list loc :=
  match cells h !! l with Some (CArray elems) => elems | _ => [] end.

Definition object_at (h : heap) (l : loc) : gmap string value :=
  match cells h !! l with Some (CObject props) => props | _ => ∅ end.

(** The items an array holds, read through its references. *)
Definition items_at (h : heap) (l : loc) : list Cart.CartItem :=
  omap (item_at h) (array_at h l).

(** A cart whose fields are references. [calls] lists the calls
    [observer(this.state)]: the subscriber receives the snapshot object
    itself. *)
Record Cart {O : Type} := mk {
  state : loc;
  observers : list O;
  calls : list (O * loc);
  items : loc;
  totalPrice : number
}.
Arguments Cart : clear implicits.

Section Ops.
Context {O : Type}.
Implicit Types (c : Cart O) (h : heap).

(** [new Cart()]: the objects [{}] and [[]] of the two constructors. *)
Definition new h : Cart O * heap :=
  let '(s, h) := alloc (CObject ∅) h in
  let '(a, h) := alloc (CArray []) h in
  ({| state := s; observers := []; calls := []; items := a;
      totalPrice := zero |}, h).

Definition subscribe (observer : O) c : Cart O :=
  {| state := state c; observers := observers c ++ [observer];
     calls := calls c; items := items c; totalPrice := totalPrice c |}.

(** [this.state = { ...this.state, ...newState }; this.notify()]: the
    merged snapshot is a new object. *)
Definition setState (newState : gmap string value) c h : Cart O * heap :=
  let '(s, h) := alloc (CObject (newState ∪ object_at h (state c))) h in
  ({| state := s; observers := observers c;
      calls := calls c ++ ((λ observer, (observer, s)) <$> observers c);
      items := items c; totalPrice := totalPrice c |}, h).

(** [return { ...this.state }]: a new object with the same properties. *)
Definition getState c h : loc * heap :=
  alloc (CObject (object_at h (state c))) h.

(** [calculateTotal(); setState({ items: this.items, totalPrice: this.totalPrice })] *)
Definition publish c h : Cart O * heap :=
  let total := Cart.total_of (items_at h (items c)) in
  setState {[ "items" := VRef (items c); "totalPrice" := VNumber total ]}
           {| state := state c; observers := observers c; calls := calls c;
              items := items c; totalPrice := total |} h.

(** [addItem(product)]: the item found is updated where it is; a new item
    is a new object, pushed on the array [this.items] refers to. *)
Definition addItem (product : Cart.Product) c h : Cart O * heap :=
  let elems := array_at h (items c) in
  let h :=
    match list_find (λ l, Cart.name <$> item_at h l = Some (Cart.p_name product))
                    elems with
    | Some (_, l) =>
        match item_at h l with
        | Some existingItem =>
            store l (CItem {| Cart.name := Cart.name existingItem;
                              Cart.price := Cart.price existingItem;
                              Cart.quantity := Cart.incr (Cart.quantity existingItem) |}) h
        | None => h
        end
    | None =>
        let '(l, h) := alloc (CItem {| Cart.name := Cart.p_name product;
                                       Cart.price := Cart.p_price product;
                                       Cart.quantity := 1 |}) h in
        store (items c) (CArray (elems ++ [l])) h
    end in
  publish c h.

(** [removeItem(productName)]: [filter] builds a new array of the same
    item objects. *)
Definition removeItem (productName : jsstring) c h : Cart O * heap :=
  let '(a, h) :=
    alloc (CArray (filter (λ l, Cart.name <$> item_at h l ≠ Some productName)
                          (array_at h (items c)))) h in
  publish {| state := state c; observers := observers c; calls := calls c;
             items := a; totalPrice := totalPrice c |} h.

(** [clearCart()]: two new empty arrays, one for [this.items] and one in
    the snapshot. *)
Definition clearCart c h : Cart O * heap :=
  let '(a, h) := alloc (CArray []) h in
  let '(b, h) := alloc (CArray []) h in
  setState {[ "items" := VRef b; "totalPrice" := VNumber zero ]}
           {| state := state c; observers := observers c; calls := calls c;
              items := a; totalPrice := zero |} h.

(** [getItemCount()] *)
Definition getItemCount c h : number :=
  foldl (λ count item, add count (of_Z (Cart.quantity item))) zero
        (items_at h (items c)).
End Ops.

(** What the holder of a snapshot object can do with it. *)
Inductive mutation :=
  | SetProp (k : string) (v : value)            (* [s[k] = v] *)
  | DeleteProp (k : string)                     (* [delete s[k]] *)
  | Push (k : string) (item : Cart.CartItem)    (* [s[k].push({...})] *)
  | Pop (k : string)                            (* [s[k].pop()] *)
  | SetQuantity (k : string) (i : nat) (q : Z). (* [s[k][i].quantity = q] *)

(** The array a property refers to, when it refers to one. *)
Definition array_of (h : heap) (s : loc) (k : string) : option loc :=
  match object_at h s !! k with
  | Some (VRef a) =>
      match cells h !! a with Some (CArray _) => Some a | _ => None end
  | _ => None
  end.

(** The mutation [m] applied through the snapshot object at [s]. *)
Definition apply (m : mutation) (s : loc) (h : heap) : heap :=
  match m with
  | SetProp k v => store s (CObject (<[ k := v ]> (object_at h s))) h
  | DeleteProp k => store s (CObject (delete k (object_at h s))) h
  | Push k item =>
      match array_of h s k with
      | Some a =>
          let elems := array_at h a in
          let '(l, h) := alloc (CItem item) h in
          store a (CArray (elems ++ [l])) h
      | None => h
      end
  | Pop k =>
      match array_of h s k with
      | Some a => store a (CArray (removelast (array_at h a))) h
      | None => h
      end
  | SetQuantity k i q =>
      match array_of h s k with
      | Some a =>
          match array_at h a !! i with
          | Some l =>
              match item_at h l with
              | Some item =>
                  store l (CItem {| Cart.name := Cart.name item;
                                    Cart.price := Cart.price item;
                                    Cart.quantity := q |}) h
              | None => h
              end
          | None => h
          end
      | None => h
      end
  end.

(** The mutations that touch the snapshot object only. *)
Definition top_level (m : mutation) : bool :=
  match m with SetProp _ _ | DeleteProp _ => true | _ => false end.

(** A snapshot as its reader sees it: numbers, and arrays read through. *)
Inductive seen :=
  | SNumber (x : number)
  | SItems (l : list Cart.CartItem).

Definition view (h : heap) (s : loc) : gmap string seen :=
  (λ v, match v with
        | VNumber x => SNumber x
        | VRef a => SItems (items_at h a)
        end) <$> object_at h s.

(** What a call of [getState()] made now would show. *)
Definition observe {O} (c : Cart O) (h : heap) : gmap string seen :=
  let '(s, h) := getState c h in view h s.

(** What the subscribers would be shown by a call [setState(newState)] made
    now. *)
Definition notified {O} (newState : gmap string value) (c : Cart O) (h : heap)
  : gmap string seen :=
  let '(c, h) := setState newState c h in view h (state c).

(** A call of the cart from outside, and a sequence of calls. *)
Definition step {O} (ch : Cart O * heap) (o : Cart.op) : Cart O * heap :=
  match o with
  | Cart.AddItem product => addItem product ch.1 ch.2
  | Cart.RemoveItem productName => removeItem productName ch.1 ch.2
  | Cart.ClearCart => clearCart ch.1 ch.2
  end.

Definition run {O} (ops : list Cart.op) (ch : Cart O * heap) : Cart O * heap :=
  foldl step ch ops.

(** The component's objects exist. *)
Definition allocated {O} (c : Cart O) (h : heap) : Prop :=
  (state c < next h)%nat ∧ (items c < next h)%nat.
End Heap.

(** ** Derived notions *)


(** The amount one item adds to the total. *)
Definition line (item : Cart.CartItem) : number :=
  mul (parseFloat (Cart.price item)) (of_Z (Cart.quantity item)).

(** The invariant of the items list: one item per name, quantities at least 1. *)
Definition cart_inv (l : list Cart.CartItem) : Prop :=
  NoDup (Cart.name <$> l) ∧ Forall (λ item, 1 ≤ Cart.quantity item) l.

(** A snapshot value as its reader sees it. *)
Definition seen_of (v : Cart.value) : Heap.seen :=
  match v with
  | Cart.VItems l => Heap.SItems l
  | Cart.VNumber x => Heap.SNumber x
  end.

(** The cell at [l] is the item [item]. *)
Definition holds (h : Heap.heap) (l : Heap.loc) (item : Cart.CartItem) : Prop :=
  Heap.cells h !! l = Some (Heap.CItem item).

(** No object lives at or past the next location to be allocated. *)
Definition free_past_next (h : Heap.heap) : Prop :=
  ∀ l, (Heap.next h ≤ l)%nat → Heap.cells h !! l = None.

(** A snapshot with no property, or with the two the cart publishes. *)
Definition two_keys {V} (props : gmap string V) : Prop :=
  props = ∅ ∨ ∃ v1 v2, props = {[ "items" := v1; "totalPrice" := v2 ]}.

(** The cart with references [hc], in the heap [h], stands for the cart [c]:
    its array holds distinct item objects whose contents are the items of
    [c], totals and subscribers agree, the cells past [next] are free, and
    the snapshot object is either empty, as is the snapshot of [c], or holds
    a reference to an array with the items of [c] and their total, as does
    the snapshot of [c] by value. *)
Definition stands_for {O} (hc : Heap.Cart O) (h : Heap.heap) (c : Cart.Cart O) : Prop :=
  (∃ elems,
     Heap.cells h !! Heap.items hc = Some (Heap.CArray elems) ∧
     NoDup elems ∧
     Forall2 (holds h) elems (Cart.items c)) ∧
  Heap.totalPrice hc = Cart.totalPrice c ∧
  Heap.observers hc = Base.observers (Cart.base c) ∧
  (Heap.state hc < Heap.next h)%nat ∧
  free_past_next h ∧
  ((Heap.object_at h (Heap.state hc) = ∅ ∧ Base.state (Cart.base c) = ∅) ∨
   (∃ a, Heap.object_at h (Heap.state hc) =
           {[ "items" := Heap.VRef a;
              "totalPrice" := Heap.VNumber (Cart.totalPrice c) ]} ∧
         Heap.items_at h a = Cart.items c ∧
         Base.state (Cart.base c) =
           {[ "items" := Cart.VItems (Cart.items c);
              "totalPrice" := Cart.VNumber (Cart.totalPrice c) ]})).

(** Two heaps that hold the same items and the same arrays. *)
Definition same_data (h h' : Heap.heap) : Prop :=
  ∀ l, Heap.item_at h l = Heap.item_at h' l ∧ Heap.array_at h l = Heap.array_at h' l.

(** ** Sample data *)

Definition lamp : jsstring := str "Lamp".
Definition shade : jsstring := str "Shade".

(** The price text of the page: a currency sign and the amount. *)
Definition lamp_price : jsstring := 8381%N :: str "199.99".


(** A cart in the heap, after one [addItem]. *)
Definition sample_heap_cart : Heap.Cart unit * Heap.heap :=
  let '(c, h) := Heap.new Heap.empty in
  Heap.addItem {| Cart.p_name := lamp; Cart.p_price := str "199.99" |} c h.

(** * Properties *)

(** ** The model on concrete inputs *)

(** 199.99 is the number 7036522574045512 × 2^-45. *)
Example parseFloat_199_99 :
  parseFloat (str "199.99") = S754_finite false 7036522574045512 (-45).
Proof. reflexivity. Qed.

Example parseFloat_prefix :
  parseFloat (str "1.2.3") = parseFloat (str "1.2") ∧
  parseFloat (str "  -1.5e3 each") = SFopp (of_Z 1500) ∧
  parseFloat (str "5.") = of_Z 5 ∧
  parseFloat (str ".5") = of_ratio false 1 2.
Proof. by vm_compute. Qed.

Example parseFloat_exponent :
  parseFloat (str "12e3") = of_Z 12000 ∧
  parseFloat (str "1.5E+2.5") = of_Z 150 ∧
  parseFloat (str "1e") = of_Z 1 ∧
  parseFloat (str "1e-") = of_Z 1 ∧
  parseFloat (str "+.5e1") = of_Z 5 ∧
  parseFloat (str "-0") = S754_zero true ∧
  parseFloat (str "-Infinity and beyond") = S754_infinity true ∧
  parseFloat (str "1e400") = S754_infinity false.
Proof. by vm_compute. Qed.

Example parseFloat_no_number :
  parseFloat [] = NaN ∧ parseFloat (str ".") = NaN ∧
  parseFloat (str "..5") = NaN ∧ parseFloat (str "free") = NaN.
Proof. by vm_compute. Qed.

Example priceClean_lamp_price : App.priceClean lamp_price = str "199.99".
Proof. reflexivity. Qed.

Example priceClean_thousands :
  App.priceClean (str "PHP 1,299.00 only") = str "1299.00".
Proof. reflexivity. Qed.

(** [quantity += 1] on numbers and [incr] on integers agree, also at the
    point where the sum stops growing. *)
Example incr_matches_add :
  add (of_Z 1) (of_Z 1) = of_Z (Cart.incr 1) ∧
  add (of_Z 41) (of_Z 1) = of_Z (Cart.incr 41) ∧
  add (of_Z (2 ^ 53 - 1)) (of_Z 1) = of_Z (Cart.incr (2 ^ 53 - 1)) ∧
  add (of_Z (2 ^ 53)) (of_Z 1) = of_Z (Cart.incr (2 ^ 53)).
Proof. by vm_compute. Qed.

(** The scenario of the page: a lamp added twice, then removed. *)
Example lamp_twice_then_removed :
  let product := {| Cart.p_name := lamp; Cart.p_price := App.priceClean lamp_price |} in
  let c2 : Cart.Cart unit := Cart.addItem product (Cart.addItem product Cart.new) in
  let c3 := Cart.removeItem lamp c2 in
  Cart.getCartData c2 =
    ([ {| Cart.name := lamp; Cart.price := str "199.99"; Cart.quantity := 2 |} ],
     parseFloat (str "399.98"), of_Z 2) ∧
  Cart.getCartData c3 = ([], zero, zero).
Proof. by vm_compute. Qed.

Example validateEmail_samples :
  FormValidator.validateEmail (str "a@b.com") = true ∧
  FormValidator.validateEmail (str "a@b") = false ∧
  FormValidator.validateEmail (str "@b.com") = false ∧
  FormValidator.validateEmail (str "a b@c.de") = false ∧
  FormValidator.validateEmail (str "a@b.c.d") = true ∧
  FormValidator.validateEmail (str "a@@b.com") = false.
Proof. by vm_compute. Qed.

Example validateRequired_samples :
  FormValidator.validateRequired [] = false ∧
  FormValidator.validateRequired [32; 160; 9; 10]%N = false ∧
  FormValidator.validateRequired (str " x ") = true.
Proof. by vm_compute. Qed.

(** The badge after one purchase shows 1 and is visible. *)
Example badge_after_one_item :
  App.cartCount
    (App.handleAddToCart lamp lamp_price (λ _, 1)
       (App.new (O := unit) (λ _, 0)
                (Some {| App.textContent := zero; App.display := "none" |})))
  = Some {| App.textContent := of_Z 1; App.display := "flex" |}.
Proof. by vm_compute. Qed.

(** ** Numbers *)




(** Adding to [+0] returns the other operand, [-0] apart. *)
Lemma add_zero_l (x : number) : x ≠ S754_zero true → add zero x = x.
Proof. destruct x as [[]| | |]; done. Qed.

(** ** Rounding never gives NaN *)

Section Rounding.








End Rounding.

(** ** [parseFloat] on price text *)

Section ParseFloat.












Lemma parseFloat_nil : parseFloat [] = NaN.
Proof. done. Qed.

End ParseFloat.

(** ** The cart: totals *)

Section CartTotals.
Import Cart.

Lemma total_of_nil : total_of [] = zero.
Proof. done. Qed.

Lemma total_of_snoc l item : total_of (l ++ [item]) = add (total_of l) (line item).
Proof. unfold total_of. by rewrite foldl_app. Qed.


End CartTotals.

(** ** The cart: one call *)

Section CartSteps.
Import Cart.
Context {O : Type}.
Implicit Types (c : Cart O) (product : Product).

Lemma items_publish c : items (publish c) = items c.
Proof. done. Qed.

Lemma totalPrice_addItem product c :
  totalPrice (addItem product c) = total_of (items (addItem product c)).
Proof. done. Qed.

Lemma totalPrice_removeItem productName c :
  totalPrice (removeItem productName c) = total_of (items (removeItem productName c)).
Proof. done. Qed.

Lemma totalPrice_clearCart c :
  totalPrice (clearCart c) = total_of (items (clearCart c)).
Proof. done. Qed.

(** [addItem] for a name the cart does not hold. *)
Lemma items_addItem_new product c :
  (∀ item, item ∈ items c → name item ≠ p_name product) →
  items (addItem product c) =
    items c ++ [ {| name := p_name product; price := p_price product;
                    quantity := 1 |} ].
Proof.
  intros Hnew. unfold addItem; simpl.
  destruct (list_find _ _) as [[i x]|] eqn:Hfind; [|done].
  apply list_find_Some in Hfind as (Hi & Hx & _).
  exfalso. eapply Hnew; [|exact Hx]. eapply list_elem_of_lookup_2, Hi.
Qed.

(** [addItem] for a name the cart holds: the first item of that name, at
    index [i], gets one more. *)
Lemma items_addItem_existing product c i existingItem :
  items c !! i = Some existingItem →
  name existingItem = p_name product →
  (∀ j item, items c !! j = Some item → (j < i)%nat → name item ≠ p_name product) →
  items (addItem product c) =
    <[ i := {| name := name existingItem; price := price existingItem;
               quantity := incr (quantity existingItem) |} ]> (items c).
Proof.
  intros Hi Hname Hfirst. unfold addItem; simpl.
  assert (list_find (λ item, name item = p_name product) (items c)
          = Some (i, existingItem)) as ->; [|done].
  apply list_find_Some. split_and!; [done..|]. intros j y Hj Hlt. by eapply Hfirst.
Qed.

Lemma items_removeItem productName c :
  items (removeItem productName c) = filter (λ item, name item ≠ productName) (items c).
Proof. done. Qed.
End CartSteps.

(** ** The cart: prices that are no number, and totals *)






Lemma incr_pos q : 1 ≤ q → 1 ≤ Cart.incr q.
Proof. unfold Cart.incr. case_match; lia. Qed.

Lemma cart_inv_addItem {O} product (c : Cart.Cart O) :
  cart_inv (Cart.items c) → cart_inv (Cart.items (Cart.addItem product c)).
Proof.
  intros [Hnd Hq]. unfold Cart.addItem; cbn.
  destruct (list_find _ _) as [[i x]|] eqn:Hfind.
  - apply list_find_Some in Hfind as (Hi & Hx & _). split.
    + rewrite list_fmap_insert. cbn. rewrite list_insert_id; [done|].
      by rewrite list_lookup_fmap, Hi.
    + apply Forall_insert; [done|]. cbn. apply incr_pos.
      by eapply (Forall_lookup_1 _ _ _ _ Hq).
  - apply list_find_None in Hfind. split.
    + rewrite fmap_app. apply NoDup_app. split_and!; [done| |apply NoDup_singleton].
      intros n [item [-> Hin]]%list_elem_of_fmap Heq%list_elem_of_singleton.
      cbn in Heq. by eapply (proj1 (Forall_forall _ _) Hfind).
    + apply Forall_app. split; [done|]. by apply Forall_singleton.
Qed.

Lemma cart_inv_removeItem {O} productName (c : Cart.Cart O) :
  cart_inv (Cart.items c) → cart_inv (Cart.items (Cart.removeItem productName c)).
Proof.
  intros [Hnd Hq]. rewrite items_removeItem. split.
  - eapply sublist_NoDup; [exact Hnd|]. apply fmap_sublist, sublist_filter.
  - apply Forall_forall. intros item [_ Hin]%list_elem_of_filter.
    by apply (proj1 (Forall_forall _ _) Hq).
Qed.

Lemma cart_inv_clearCart {O} (c : Cart.Cart O) :
  cart_inv (Cart.items (Cart.clearCart c)).
Proof. split; [apply NoDup_nil_2|apply Forall_nil_2]. Qed.

(** C9: [addItem], [removeItem] and [clearCart] each preserve the invariant
    that the items list holds at most one item per name and that every
    quantity is at least 1. *)
Theorem cart_inv_preserved {O} (c : Cart.Cart O) (o : Cart.op) :
  cart_inv (Cart.items c) → cart_inv (Cart.items (Cart.step c o)).
Proof.
  intros Hinv. destruct o; cbn [Cart.step].
  - by apply cart_inv_addItem.
  - by apply cart_inv_removeItem.
  - apply cart_inv_clearCart.
Qed.

Lemma cart_inv_preserved_witness :
  let c : Cart.Cart unit :=
    Cart.addItem {| Cart.p_name := lamp; Cart.p_price := str "199.99" |} Cart.new in
  cart_inv (Cart.items c) ∧
  cart_inv (Cart.items (Cart.step c (Cart.AddItem
              {| Cart.p_name := lamp; Cart.p_price := str "5" |}))).
Proof.
  assert (cart_inv (Cart.items (Cart.addItem (O := unit)
            {| Cart.p_name := lamp; Cart.p_price := str "199.99" |} Cart.new))) as H.
  { split; cbn.
    - apply NoDup_singleton.
    - apply Forall_singleton. cbn. lia. }
  split; [exact H|]. apply (cart_inv_preserved _ _ H).
Defined.

(** The invariant holds of a new cart, hence after every sequence of calls. *)
Lemma cart_inv_run (ops : list Cart.op) :
  cart_inv (Cart.items (Cart.run (O := unit) ops Cart.new)).
Proof.
  unfold Cart.run. induction ops as [|o ops IH] using rev_ind.
  - split; [apply NoDup_nil_2|apply Forall_nil_2].
  - rewrite foldl_app. cbn [foldl]. destruct o; cbn [Cart.step].
    + by apply cart_inv_addItem.
    + by apply cart_inv_removeItem.
    + apply cart_inv_clearCart.
Qed.

(** ** The cart: adding the same name twice *)

Lemma filter_none {A} (P : A → Prop) `{∀ x, Decision (P x)} (l : list A) :
  (∀ x, x ∈ l → ¬ P x) → filter P l = [].
Proof.
  induction l as [|x l IH]; intros Hno; [done|].
  rewrite filter_cons_False; [|apply Hno; left].
  apply IH. intros y Hy. apply Hno. by right.
Qed.

Lemma filter_all {A} (P : A → Prop) `{∀ x, Decision (P x)} (l : list A) :
  (∀ x, x ∈ l → P x) → filter P l = l.
Proof.
  induction l as [|x l IH]; intros Hall; [done|].
  rewrite filter_cons_True; [|apply Hall; left].
  f_equal. apply IH. intros y Hy. apply Hall. by right.
Qed.

(** C5, as stated, fails: with a lamp at 199.99 in the cart and no shade,
    adding a shade at 10 twice leaves a total of 219.99, not 2 × 10. *)
Lemma add_twice_total_counts_other_items :
  let c : Cart.Cart unit :=
    Cart.addItem {| Cart.p_name := lamp; Cart.p_price := str "199.99" |} Cart.new in
  let product := {| Cart.p_name := shade; Cart.p_price := str "10" |} in
  let c' := Cart.addItem product (Cart.addItem product c) in
  Forall (λ item, Cart.name item ≠ shade) (Cart.items c) ∧
  Cart.totalPrice c' = parseFloat (str "219.99") ∧
  Cart.totalPrice c' ≠ mul (parseFloat (str "10")) (of_Z 2).
Proof.
  split_and!.
  - apply Forall_singleton. vm_compute. discriminate.
  - vm_compute. reflexivity.
  - vm_compute. discriminate.
Qed.

(** C5 (amended): starting from a cart with no item named [n], two calls of
    [addItem] with name [n] leave exactly one item named [n], at the end of
    the list, with quantity 2 and the price of the first call, whatever price
    the second call gives; the total is the total of the items that were
    there plus price × 2, which for an empty cart is 0 + price × 2, that is
    price × 2 (unless that product is the negative zero). *)
Theorem add_twice_same_name {O} (c : Cart.Cart O) (n p1 p2 : jsstring) :
  (∀ item, item ∈ Cart.items c → Cart.name item ≠ n) →
  let c' := Cart.addItem {| Cart.p_name := n; Cart.p_price := p2 |}
              (Cart.addItem {| Cart.p_name := n; Cart.p_price := p1 |} c) in
  let item2 := {| Cart.name := n; Cart.price := p1; Cart.quantity := 2 |} in
  Cart.items c' = Cart.items c ++ [item2] ∧
  filter (λ item, Cart.name item = n) (Cart.items c') = [item2] ∧
  Cart.totalPrice c' =
    add (Cart.total_of (Cart.items c)) (mul (parseFloat p1) (of_Z 2)) ∧
  (Cart.items c = [] →
   Cart.totalPrice c' = add zero (mul (parseFloat p1) (of_Z 2)) ∧
   (mul (parseFloat p1) (of_Z 2) ≠ S754_zero true →
    Cart.totalPrice c' = mul (parseFloat p1) (of_Z 2))).
Proof.
  intros Hnew c' item2.
  set (c1 := Cart.addItem {| Cart.p_name := n; Cart.p_price := p1 |} c) in *.
  assert (Cart.items c1 =
          Cart.items c ++ [ {| Cart.name := n; Cart.price := p1; Cart.quantity := 1 |} ])
    as H1 by (by apply items_addItem_new).
  assert (Cart.items c' = Cart.items c ++ [item2]) as H2.
  { subst c'.
    rewrite (items_addItem_existing _ c1 (length (Cart.items c))
               {| Cart.name := n; Cart.price := p1; Cart.quantity := 1 |}).
    - rewrite H1, insert_app_r_alt by lia. by rewrite Nat.sub_diag.
    - rewrite H1. by apply list_lookup_middle.
    - done.
    - intros j item Hj Hlt. rewrite H1, lookup_app_l in Hj by done.
      apply Hnew. by eapply list_elem_of_lookup_2. }
  assert (Cart.totalPrice c' =
          add (Cart.total_of (Cart.items c)) (mul (parseFloat p1) (of_Z 2))) as H3.
  { subst c'. by rewrite totalPrice_addItem, H2, total_of_snoc. }
  split_and!; [done| |done|].
  - rewrite H2, filter_app, filter_none by done.
    by rewrite filter_cons_True.
  - intros Hnil. rewrite H3, Hnil, total_of_nil. split; [done|].
    apply add_zero_l.
Qed.

Lemma add_twice_same_name_witness :
  let c' : Cart.Cart unit :=
    Cart.addItem {| Cart.p_name := lamp; Cart.p_price := str "5" |}
      (Cart.addItem {| Cart.p_name := lamp; Cart.p_price := str "199.99" |} Cart.new) in
  Cart.items c' =
    [ {| Cart.name := lamp; Cart.price := str "199.99"; Cart.quantity := 2 |} ].
Proof.
  apply (add_twice_same_name (O := unit) Cart.new lamp (str "199.99") (str "5")).
  intros item Hin. by apply elem_of_nil in Hin.
Defined.

(** ** The cart: order of the items *)

(** C10: the items list stays in first-insertion order. [addItem] on a name
    the cart holds changes the quantity of the first item of that name where
    it stands (same length, same names in the same order, every other item
    untouched); [addItem] on a new name appends the item at the end;
    [removeItem] keeps the remaining items, all those of another name, in
    their relative order. *)
Theorem items_stay_in_insertion_order {O} (c : Cart.Cart O)
    (product : Cart.Product) (productName : jsstring) :
  ((∃ item, item ∈ Cart.items c ∧ Cart.name item = Cart.p_name product) →
   ∃ i existingItem,
     Cart.items c !! i = Some existingItem ∧
     Cart.name existingItem = Cart.p_name product ∧
     Cart.items (Cart.addItem product c) =
       <[ i := {| Cart.name := Cart.name existingItem;
                  Cart.price := Cart.price existingItem;
                  Cart.quantity := Cart.incr (Cart.quantity existingItem) |} ]>
         (Cart.items c) ∧
     Cart.name <$> Cart.items (Cart.addItem product c) = Cart.name <$> Cart.items c ∧
     (∀ j, j ≠ i → Cart.items (Cart.addItem product c) !! j = Cart.items c !! j)) ∧
  ((∀ item, item ∈ Cart.items c → Cart.name item ≠ Cart.p_name product) →
   Cart.items (Cart.addItem product c) =
     Cart.items c ++ [ {| Cart.name := Cart.p_name product;
                          Cart.price := Cart.p_price product;
                          Cart.quantity := 1 |} ]) ∧
  Cart.items (Cart.removeItem productName c) `sublist_of` Cart.items c ∧
  Cart.items (Cart.removeItem productName c) =
    filter (λ item, Cart.name item ≠ productName) (Cart.items c).
Proof.
  split_and!.
  - intros (item & Hin & Hname).
    destruct (list_find (λ item, Cart.name item = Cart.p_name product) (Cart.items c))
      as [[i x]|] eqn:Hfind.
    + apply list_find_Some in Hfind as (Hi & Hx & Hfirst).
      exists i, x.
      assert (Cart.items (Cart.addItem product c) =
              <[ i := {| Cart.name := Cart.name x; Cart.price := Cart.price x;
                         Cart.quantity := Cart.incr (Cart.quantity x) |} ]>
                (Cart.items c)) as Heq.
      { apply items_addItem_existing; [done..|]. intros j y Hj Hlt. by eapply Hfirst. }
      split_and!; [done..| |].
      * rewrite Heq, list_fmap_insert. cbn. apply list_insert_id.
        by rewrite list_lookup_fmap, Hi.
      * intros j Hj. rewrite Heq. by apply list_lookup_insert_ne.
    + apply list_find_None in Hfind.
      by destruct (proj1 (Forall_forall _ _) Hfind item Hin).
  - apply items_addItem_new.
  - rewrite items_removeItem. apply sublist_filter.
  - apply items_removeItem.
Qed.

Lemma items_stay_in_insertion_order_witness :
  let lamp1 := {| Cart.name := lamp; Cart.price := str "199.99"; Cart.quantity := 1 |} in
  let lamp2 := {| Cart.name := lamp; Cart.price := str "199.99"; Cart.quantity := 2 |} in
  let shade1 := {| Cart.name := shade; Cart.price := str "10"; Cart.quantity := 1 |} in
  let desk1 := {| Cart.name := str "Desk"; Cart.price := str "80"; Cart.quantity := 1 |} in
  let c : Cart.Cart unit :=
    Cart.run [ Cart.AddItem {| Cart.p_name := lamp; Cart.p_price := str "199.99" |};
               Cart.AddItem {| Cart.p_name := shade; Cart.p_price := str "10" |} ]
             Cart.new in
  Cart.items c = [lamp1; shade1] ∧
  Cart.items (Cart.addItem {| Cart.p_name := lamp; Cart.p_price := str "1" |} c)
    = [lamp2; shade1] ∧
  Cart.items (Cart.addItem {| Cart.p_name := str "Desk"; Cart.p_price := str "80" |} c)
    = [lamp1; shade1; desk1] ∧
  Cart.items (Cart.removeItem lamp c) = [shade1].
Proof.
  cbv zeta.
  set (c := Cart.run (O := unit) _ _).
  assert (Cart.items c =
          [ {| Cart.name := lamp; Cart.price := str "199.99"; Cart.quantity := 1 |};
            {| Cart.name := shade; Cart.price := str "10"; Cart.quantity := 1 |} ])
    as Hc by reflexivity.
  split_and!.
  - exact Hc.
  - destruct (items_stay_in_insertion_order c
                {| Cart.p_name := lamp; Cart.p_price := str "1" |} lamp)
      as (Hexisting & _).
    destruct Hexisting as (i & x & Hi & Hx & Heq & _).
    { eexists. split; [rewrite Hc; left|reflexivity]. }
    rewrite Heq. rewrite Hc in Hi |- *.
    destruct i as [|[|i]]; cbn in Hi; injection Hi as <- || discriminate Hi.
    + reflexivity.
    + discriminate Hx.
  - destruct (items_stay_in_insertion_order c
                {| Cart.p_name := str "Desk"; Cart.p_price := str "80" |} lamp)
      as (_ & Hnew & _).
    rewrite Hnew; [by rewrite Hc|].
    intros item. rewrite Hc.
    intros [->|[->|[]%elem_of_nil]%elem_of_cons]%elem_of_cons; discriminate.
  - destruct (items_stay_in_insertion_order c
                {| Cart.p_name := lamp; Cart.p_price := str "1" |} lamp)
      as (_ & _ & _ & Hfilter).
    rewrite Hfilter, Hc. reflexivity.
Defined.

(** ** [BaseComponent]: [setState] *)



(** ** [Notification] *)

Section NotificationSteps.
Import Notification.
Context {O : Type}.
Implicit Types (n : Notification O).

Lemma notifications_remove notificationId n :
  notifications (remove notificationId n) =
    filter (λ x, id x ≠ notificationId) (notifications n).
Proof. done. Qed.

Lemma notifications_show message type duration now date n :
  notifications (show message type duration now date n) =
    notifications n ++ [ {| id := now; message := message;
                            type := default (str "info") type;
                            timestamp := date |} ].
Proof. done. Qed.




End NotificationSteps.






(** C7: [remove(id)] deletes every record with that id and no other, keeping
    the order, and publishes the list that is left; when no record has the
    id the list is unchanged; removing twice is removing once. [show] on a
    new notification centre followed by
    the removal of the id just given leaves no record, here or after any
    list of earlier records (none with that id is left), and the timer that
    [show] left behind, when it fires after that, finds nothing to remove and
    leaves the list as it is. All of these are total functions. *)
Theorem remove_is_idempotent {O} (n : Notification.Notification O)
    (notificationId : Z) (message : jsstring) (type : option jsstring)
    (duration : option Z) (now date : Z) :
  let n' := Notification.remove notificationId n in
  Notification.notifications n' =
    filter (λ x, Notification.id x ≠ notificationId) (Notification.notifications n) ∧
  (∀ x, x ∈ Notification.notifications n' ↔
        x ∈ Notification.notifications n ∧ Notification.id x ≠ notificationId) ∧
  Notification.notifications n' `sublist_of` Notification.notifications n ∧
  ((∀ x, x ∈ Notification.notifications n → Notification.id x ≠ notificationId) →
   Notification.notifications n' = Notification.notifications n) ∧
  Notification.notifications (Notification.remove notificationId n') =
    Notification.notifications n' ∧
  Base.getState (Notification.base n') !! "notifications" =
    Some (Notification.notifications n') ∧
  (let shown := Notification.show message type duration now date n in
   let dismissed := Notification.remove now shown in
   Notification.notifications dismissed =
     filter (λ x, Notification.id x ≠ now) (Notification.notifications n) ∧
   (Notification.notifications n = [] → Notification.notifications dismissed = []) ∧
   (∀ i, Notification.timers dismissed !! i = Some (default 3000 duration, now) →
         Notification.notifications (Notification.fire i dismissed) =
           Notification.notifications dismissed) ∧
   Notification.timers dismissed =
     Notification.timers n ++ [(default 3000 duration, now)]).
Proof.
  intros n'. split_and!.
  - done.
  - intros x. subst n'. rewrite notifications_remove, list_elem_of_filter. tauto.
  - subst n'. rewrite notifications_remove. apply sublist_filter.
  - intros Hnone. subst n'. rewrite notifications_remove. by apply filter_all.
  - subst n'. rewrite !notifications_remove. apply filter_all.
    by intros x [? _]%list_elem_of_filter.
  - subst n'. cbn. rewrite lookup_union_l'; [|by eexists]. apply lookup_singleton_eq.
  - intros shown dismissed.
    assert (Notification.notifications dismissed =
            filter (λ x, Notification.id x ≠ now) (Notification.notifications n)) as Hd.
    { subst dismissed shown. rewrite notifications_remove, notifications_show.
      rewrite filter_app, filter_cons_False, filter_nil, app_nil_r; [done|].
      cbn. by intros []. }
    split_and!; [done| |  |done].
    + intros Hnil. by rewrite Hd, Hnil.
    + intros i Hi. unfold Notification.fire. rewrite Hi.
      rewrite notifications_remove. cbn [Notification.notifications].
      apply filter_all. intros x. rewrite Hd. by intros [? _]%list_elem_of_filter.
Qed.

Lemma remove_is_idempotent_witness :
  let shown : Notification.Notification unit :=
    Notification.show (str "x") (Some (str "error")) (Some 100) 5 5 Notification.new in
  let dismissed := Notification.remove 5 shown in
  Notification.notifications shown ≠ [] ∧
  Notification.notifications dismissed = [] ∧
  Notification.timers dismissed = [(100, 5)] ∧
  Notification.notifications (Notification.fire 0 dismissed) = [].
Proof.
  pose proof (remove_is_idempotent (O := unit) Notification.new 5 (str "x")
                (Some (str "error")) (Some 100) 5 5) as H.
  cbn zeta in H. destruct H as (_ & _ & _ & _ & _ & _ & Hd & Hnil & Hfire & Ht).
  split_and!.
  - discriminate.
  - by apply Hnil.
  - exact Ht.
  - rewrite (Hfire 0%nat); [by apply Hnil|]. by rewrite Ht.
Defined.

(** ** Regular expressions: [test] decides membership *)

Section RegexFacts.
Import Regex.

Lemma matches_void_inv s : ¬ matches Void s.
Proof. inversion 1. Qed.

Lemma matches_eps_inv s : matches Eps s → s = [].
Proof. by inversion 1. Qed.

Lemma matches_class_inv p s : matches (Class p) s → ∃ c, s = [c] ∧ p c = true.
Proof. inversion 1; subst; eauto. Qed.

Lemma matches_seq_inv r1 r2 s :
  matches (Seq r1 r2) s → ∃ s1 s2, s = s1 ++ s2 ∧ matches r1 s1 ∧ matches r2 s2.
Proof. inversion 1; subst; eauto. Qed.

Lemma matches_alt_inv r1 r2 s : matches (Alt r1 r2) s → matches r1 s ∨ matches r2 s.
Proof. inversion 1; subst; eauto. Qed.

Lemma nullable_matches r : nullable r = true ↔ matches r [].
Proof.
  induction r as [| |p|r1 IH1 r2 IH2|r1 IH1 r2 IH2|r IH]; cbn.
  - split; [done|]. by intros ?%matches_void_inv.
  - split; [constructor|done].
  - split; [done|]. by intros (c & ? & _)%matches_class_inv.
  - rewrite andb_true_iff, IH1, IH2. split.
    + intros [H1 H2]. by apply (m_seq _ _ [] []).
    + intros (s1 & s2 & Heq & H1 & H2)%matches_seq_inv.
      symmetry in Heq. apply app_eq_nil in Heq as [-> ->]. done.
  - rewrite orb_true_iff, IH1, IH2. split.
    + intros [H|H]; [by apply m_alt_l|by apply m_alt_r].
    + apply matches_alt_inv.
  - split; [constructor|done].
Qed.

Lemma matches_star_cons_inv r c s :
  (∀ s', matches r (c :: s') → matches (deriv c r) s') →
  matches (Star r) (c :: s) → matches (Seq (deriv c r) (Star r)) s.
Proof.
  intros Hr Hm. remember (Star r) as r' eqn:Hr'. remember (c :: s) as cs eqn:Hcs.
  revert s Hcs. induction Hm as [| | | | | |r0 s1 s2 H1 _ H2 IH2]; intros t Hcs; try done.
  injection Hr' as ->. destruct s1 as [|c' s1].
  - cbn in Hcs. by apply IH2.
  - cbn in Hcs. injection Hcs as -> <-. apply m_seq; [by apply Hr|done].
Qed.

Lemma deriv_matches c r s : matches (deriv c r) s ↔ matches r (c :: s).
Proof.
  revert s. induction r as [| |p|r1 IH1 r2 IH2|r1 IH1 r2 IH2|r IH]; intros s; cbn.
  - split; by intros ?%matches_void_inv.
  - split; [by intros ?%matches_void_inv|by intros ?%matches_eps_inv].
  - destruct (p c) eqn:Hp; split.
    + intros ->%matches_eps_inv. by constructor.
    + intros (c' & [= -> ->] & _)%matches_class_inv. constructor.
    + by intros ?%matches_void_inv.
    + intros (c' & [= -> ->] & ?)%matches_class_inv. congruence.
  - destruct (nullable r1) eqn:Hn; split.
    + intros [Hl|Hr]%matches_alt_inv.
      * apply matches_seq_inv in Hl as (s1 & s2 & -> & H1 & H2).
        apply (m_seq _ _ (c :: s1) s2); [by apply IH1|done].
      * apply (m_seq _ _ [] (c :: s)); [by apply nullable_matches|by apply IH2].
    + intros (s1 & s2 & Heq & H1 & H2)%matches_seq_inv.
      destruct s1 as [|c' s1]; cbn in Heq.
      * subst. apply m_alt_r. by apply IH2.
      * injection Heq as <- ->. apply m_alt_l. apply m_seq; [by apply IH1|done].
    + intros (s1 & s2 & -> & H1 & H2)%matches_seq_inv.
      apply (m_seq _ _ (c :: s1) s2); [by apply IH1|done].
    + intros (s1 & s2 & Heq & H1 & H2)%matches_seq_inv.
      destruct s1 as [|c' s1]; cbn in Heq.
      * apply nullable_matches in H1. congruence.
      * injection Heq as <- ->. apply m_seq; [by apply IH1|done].
  - split.
    + intros [H|H]%matches_alt_inv; [apply m_alt_l|apply m_alt_r];
        [by apply IH1|by apply IH2].
    + intros [H|H]%matches_alt_inv; [apply m_alt_l|apply m_alt_r];
        [by apply IH1|by apply IH2].
  - split.
    + intros (s1 & s2 & -> & H1 & H2)%matches_seq_inv.
      apply (m_star_cons _ (c :: s1) s2); [by apply IH|done].
    + apply matches_star_cons_inv. intros s'. apply IH.
Qed.

(** [test] decides membership. *)
Lemma test_matches r s : test r s = true ↔ matches r s.
Proof.
  unfold test. revert r. induction s as [|c s IH]; intros r; cbn [foldl].
  - apply nullable_matches.
  - rewrite IH. apply deriv_matches.
Qed.

(** The words of [p+]: the non-empty strings of code units in [p]. *)
Lemma matches_star_class p s :
  matches (Star (Class p)) s ↔ Forall (λ c, p c = true) s.
Proof.
  split.
  - intros Hm. remember (Star (Class p)) as r eqn:Hr.
    induction Hm as [| | | | | |r0 s1 s2 H1 _ H2 IH2]; try done.
    injection Hr as ->. apply matches_class_inv in H1 as (c & -> & Hc).
    constructor; [done|by apply IH2].
  - induction 1 as [|c s Hc _ IH]; [constructor|].
    apply (m_star_cons _ [c] s); [by constructor|done].
Qed.

Lemma matches_plus_class p s :
  matches (Plus (Class p)) s ↔ s ≠ [] ∧ Forall (λ c, p c = true) s.
Proof.
  unfold Plus. split.
  - intros (s1 & s2 & -> & (c & -> & Hc)%matches_class_inv & H2%matches_star_class)%matches_seq_inv.
    split; [done|by constructor].
  - intros [Hne Hall]. destruct Hall as [|c s Hc Hall]; [done|].
    apply (m_seq _ _ [c] s); [by constructor|by apply matches_star_class].
Qed.
End RegexFacts.

(** The words of the email pattern. *)
Lemma emailRegex_words (email : jsstring) :
  Regex.matches FormValidator.emailRegex email ↔
  ∃ local domain tld,
    email = local ++ [commercial_at] ++ domain ++ [full_stop] ++ tld ∧
    local ≠ [] ∧ domain ≠ [] ∧ tld ≠ [] ∧
    Forall (λ c, FormValidator.not_space_at c = true) (local ++ domain ++ tld).
Proof.
  unfold FormValidator.emailRegex. split.
  - intros (local & r1 & -> & [Hl1 Hl2]%matches_plus_class & H)%matches_seq_inv.
    apply matches_seq_inv in H as (a & r2 & -> & (c & -> & Hc)%matches_class_inv & H).
    apply matches_seq_inv in H as (domain & r3 & -> & [Hd1 Hd2]%matches_plus_class & H).
    apply matches_seq_inv in H as (d & tld & -> & (c' & -> & Hc')%matches_class_inv
                                     & [Ht1 Ht2]%matches_plus_class).
    apply N.eqb_eq in Hc as <-. apply N.eqb_eq in Hc' as <-.
    exists local, domain, tld. split_and!; [done..|].
    by rewrite !Forall_app.
  - intros (local & domain & tld & -> & Hl & Hd & Ht & Hall).
    rewrite !Forall_app in Hall. destruct Hall as (Hl' & Hd' & Ht').
    apply Regex.m_seq; [by apply matches_plus_class|].
    apply Regex.m_seq; [constructor; apply N.eqb_refl|].
    apply Regex.m_seq; [by apply matches_plus_class|].
    apply Regex.m_seq; [constructor; apply N.eqb_refl|].
    by apply matches_plus_class.
Qed.

(** X2: [validateEmail] accepts exactly the strings [local @ domain . tld]
    whose three parts are non-empty and hold neither white space nor [@]. *)
Theorem validateEmail_shape (email : jsstring) :
  FormValidator.validateEmail email = true ↔
  ∃ local domain tld,
    email = local ++ [commercial_at] ++ domain ++ [full_stop] ++ tld ∧
    local ≠ [] ∧ domain ≠ [] ∧ tld ≠ [] ∧
    Forall (λ c, FormValidator.not_space_at c = true) (local ++ domain ++ tld).
Proof.
  unfold FormValidator.validateEmail. rewrite test_matches. apply emailRegex_words.
Qed.

Lemma trimStart_nil s : trimStart s = [] ↔ Forall (λ c, is_space c = true) s.
Proof.
  induction s as [|c s IH]; cbn.
  - split; [constructor|done].
  - destruct (is_space c) eqn:Hc.
    + rewrite IH. split; [by constructor|by inversion 1].
    + split; [done|]. inversion 1; congruence.
Qed.

Lemma trimStart_head s c s' : trimStart s = c :: s' → is_space c = false.
Proof.
  induction s as [|d s IH]; cbn; [done|].
  destruct (is_space d) eqn:Hd; [done|]. by intros [= <- _].
Qed.

(** [trim] leaves nothing exactly of the strings of white space. *)
Lemma trim_nil s : trim s = [] ↔ Forall (λ c, is_space c = true) s.
Proof.
  unfold trim, trimEnd. split.
  - intros Hnil. apply trimStart_nil.
    destruct (trimStart s) as [|c s'] eqn:Hs; [done|].
    apply trimStart_head in Hs.
    apply (f_equal reverse) in Hnil. rewrite reverse_involutive, reverse_nil in Hnil.
    apply trimStart_nil in Hnil. rewrite Forall_reverse in Hnil.
    apply Forall_cons in Hnil as [Hc _]. congruence.
  - intros Hall. apply trimStart_nil in Hall. by rewrite Hall.
Qed.

(** A value that fails the non-empty check fails the email check too. *)
Lemma blank_fails_email value :
  FormValidator.validateRequired value = false →
  FormValidator.validateEmail value = false.
Proof.
  unfold FormValidator.validateRequired. intros Hreq%bool_decide_eq_false.
  assert (trim value = []) as Hnil.
  { destruct (trim value); [done|]. cbn in Hreq. lia. }
  apply trim_nil in Hnil.
  destruct (FormValidator.validateEmail value) eqn:He; [|done].
  unfold FormValidator.validateEmail in He.
  apply test_matches, emailRegex_words in He as (local & domain & tld & -> & _).
  rewrite !Forall_app in Hnil. destruct Hnil as (_ & Hat & _).
  inversion Hat as [|? ? Hsp _]; subst. vm_compute in Hsp. done.
Qed.

(** ** [FormValidator] *)

Section Validate.
Import FormValidator.

Lemma check_other errors fieldName value k :
  fieldName ≠ k → check errors (fieldName, value) !! k = errors !! k.
Proof.
  intros Hne. unfold check.
  destruct (validateRequired value);
    repeat case_decide; repeat case_match;
    rewrite ?lookup_insert_ne by done; done.
Qed.

Lemma check_required errors fieldName value :
  validateRequired value = false →
  check errors (fieldName, value) !! fieldName = Some required.
Proof. intros Hreq. unfold check. rewrite Hreq. apply lookup_insert_eq. Qed.

Lemma fold_check_other errors formData k :
  k ∉ formData.*1 → foldl check errors formData !! k = errors !! k.
Proof.
  revert errors. induction formData as [|[fieldName value] formData IH];
    intros errors Hk; [done|].
  cbn [foldl]. rewrite IH, check_other; [done| |].
  - intros ->. apply Hk. cbn. left.
  - intros Hin. apply Hk. cbn. by right.
Qed.

(** A field whose value is blank ends with the required-field message,
    whatever an earlier check of the same turn wrote. *)
Lemma validate_required formData fieldName value :
  NoDup formData.*1 →
  (fieldName, value) ∈ formData →
  validateRequired value = false →
  errors (validate formData) !! fieldName = Some required.
Proof.
  intros Hnd [l1 [l2 ->]]%list_elem_of_split Hreq.
  unfold validate; cbn [errors]. rewrite foldl_app. cbn [foldl].
  rewrite fold_check_other; [by apply check_required|].
  rewrite fmap_app in Hnd. apply NoDup_app in Hnd as (_ & _ & Hnd).
  cbn in Hnd. by apply NoDup_cons in Hnd as [? _].
Qed.

End Validate.

(** C6: [validate({email: "", name: "x"})] is invalid, with the required-field
    message for [email] and no entry for [name]. In general, for form data
    with a field [email] whose value fails the email check and the non-empty
    check, the result is invalid and the message kept for [email] is the
    required-field one: it is written after the email-format one. *)
Theorem validate_required_wins (formData : list (jsstring * jsstring))
    (value : jsstring) :
  NoDup formData.*1 →
  (str "email", value) ∈ formData →
  FormValidator.validateEmail value = false →
  FormValidator.validateRequired value = false →
  (let r := FormValidator.validate [(str "email", []); (str "name", str "x")] in
   FormValidator.isValid r = false ∧
   FormValidator.errors r !! str "email" = Some (str "This field is required") ∧
   FormValidator.errors r !! str "name" = None) ∧
  FormValidator.isValid (FormValidator.validate formData) = false ∧
  FormValidator.errors (FormValidator.validate formData) !! str "email"
    = Some (str "This field is required") ∧
  FormValidator.check (<[ str "email" := str "Invalid email format" ]> ∅)
                      (str "email", value) !! str "email"
    = Some (str "This field is required").
Proof.
  intros Hnd Hin _ Hreq.
  pose proof (validate_required formData _ _ Hnd Hin Hreq) as Herr.
  split_and!.
  - vm_compute. done.
  - unfold FormValidator.validate in *. cbn [FormValidator.isValid FormValidator.errors] in *.
    apply bool_decide_eq_false. intros Hsize%map_size_empty_iff.
    rewrite Hsize in Herr. by rewrite lookup_empty in Herr.
  - exact Herr.
  - by apply check_required.
Qed.

Lemma validate_required_wins_witness :
  let formData := [(str "name", str "x"); (str "email", str "   ")] in
  FormValidator.isValid (FormValidator.validate formData) = false ∧
  FormValidator.errors (FormValidator.validate formData) !! str "email"
    = Some (str "This field is required").
Proof.
  cbn zeta.
  destruct (validate_required_wins
              [(str "name", str "x"); (str "email", str "   ")] (str "   "))
    as (_ & Hv & He & _).
  - cbn. apply NoDup_cons. split.
    + intros Hin%list_elem_of_singleton. discriminate.
    + apply NoDup_singleton.
  - right. left.
  - reflexivity.
  - reflexivity.
  - by split.
Defined.

(** ** Objects and references: what [getState] shares *)

Section HeapFacts.
Import Heap.

Lemma same_data_refl h : same_data h h.
Proof. done. Qed.

Lemma items_at_same_data h h' a : same_data h h' → items_at h a = items_at h' a.
Proof.
  intros Hsame. unfold items_at. rewrite (proj2 (Hsame a)).
  apply list_omap_ext, Forall2_same_length_lookup. split; [done|].
intros i l l' Hl Hl'. rewrite Hl in Hl'. injection Hl' as <-. apply Hsame.
Qed.

Lemma view_same_data h h' s s' :
  same_data h h' → object_at h s = object_at h' s' → view h s = view h' s'.
Proof.
  intros Hsame Hobj. unfold view. rewrite Hobj. apply map_fmap_ext.
  intros k [x|a] _; [done|]. by rewrite (items_at_same_data h h').
Qed.

(** Writing an object where an object is, or allocating objects at the
    same place on both sides, changes no item and no array. *)
Lemma same_data_store_object h s q q' :
  cells h !! s = Some (CObject q) → same_data h (store s (CObject q') h).
Proof.
  intros Hs l. unfold item_at, array_at, store; cbn.
  destruct (decide (s = l)) as [->|Hne].
  - by rewrite lookup_insert_eq, Hs.
  - by rewrite lookup_insert_ne.
Qed.

Lemma same_data_alloc_object h h' p p' :
  same_data h h' → next h = next h' →
  same_data (alloc (CObject p) h).2 (alloc (CObject p') h').2.
Proof.
  intros Hsame Hnext l. unfold item_at, array_at, alloc; cbn. rewrite <- Hnext.
  destruct (decide (next h = l)) as [->|Hne].
  - by rewrite !lookup_insert_eq.
  - rewrite !lookup_insert_ne by done. apply Hsame.
Qed.

Lemma object_at_alloc h cl : object_at (alloc cl h).2 (next h) =
  match cl with CObject p => p | _ => ∅ end.
Proof. unfold object_at, alloc; cbn. rewrite lookup_insert_eq. by destruct cl. Qed.

Lemma object_at_alloc_ne h cl l :
  l ≠ next h → object_at (alloc cl h).2 l = object_at h l.
Proof. intros Hne. unfold object_at, alloc; cbn. by rewrite lookup_insert_ne. Qed.

Lemma object_at_store_ne h cl l l' :
  l ≠ l' → object_at (store l' cl h) l = object_at h l.
Proof. intros Hne. unfold object_at, store; cbn. by rewrite lookup_insert_ne. Qed.

(** An array written where an array is leaves every object as it is. *)
Lemma object_at_store_array h a elems l :
  (∃ old, cells h !! a = Some (CArray old)) →
  object_at (store a (CArray elems) h) l = object_at h l.
Proof.
  intros [old Ha]. unfold object_at, store; cbn.
  destruct (decide (a = l)) as [->|Hne].
  - by rewrite lookup_insert_eq, Ha.
  - by rewrite lookup_insert_ne.
Qed.

Lemma object_at_store_item h l0 item l :
  (∃ old, cells h !! l0 = Some (CItem old)) →
  object_at (store l0 (CItem item) h) l = object_at h l.
Proof.
  intros [old Ha]. unfold object_at, store; cbn.
  destruct (decide (l0 = l)) as [->|Hne].
  - by rewrite lookup_insert_eq, Ha.
  - by rewrite lookup_insert_ne.
Qed.
End HeapFacts.

Section HeapSharing.
Import Heap.
Context {O : Type}.
Implicit Types (c : Cart O) (h : heap) (m : mutation).

Lemma array_of_Some h s k a :
  array_of h s k = Some a → ∃ old, cells h !! a = Some (CArray old).
Proof.
  unfold array_of. destruct (object_at h s !! k) as [[x|a']|]; [done| |done].
  destruct (cells h !! a') as [[item|old|props]|] eqn:Ha; try done.
  intros [= <-]. by exists old.
Qed.

Lemma item_at_Some h l item : item_at h l = Some item → cells h !! l = Some (CItem item).
Proof.
  unfold item_at. destruct (cells h !! l) as [[item'|old|props]|]; try done.
  by intros [= <-].
Qed.

(** No mutation made through a snapshot object reaches the properties of
    another object that exists. *)
Lemma object_at_apply m s h x :
  x ≠ s → (x < next h)%nat → object_at (apply m s h) x = object_at h x.
Proof.
  intros Hxs Hx. destruct m as [k v|k|k item|k|k i q]; cbn [apply].
  - by apply object_at_store_ne.
  - by apply object_at_store_ne.
  - destruct (array_of h s k) as [a|] eqn:Ha; [|done].
    apply array_of_Some in Ha as [old Ha].
    unfold object_at, store, alloc; cbn.
    destruct (decide (a = x)) as [->|Hne].
    + by rewrite lookup_insert_eq, Ha.
    + rewrite lookup_insert_ne by done. rewrite lookup_insert_ne by lia. done.
  - destruct (array_of h s k) as [a|] eqn:Ha; [|done].
    by apply object_at_store_array, array_of_Some with s k.
  - destruct (array_of h s k) as [a|]; [|done].
    destruct (array_at h a !! i) as [l|]; [|done].
    destruct (item_at h l) as [item|] eqn:Hl; [|done].
    apply object_at_store_item. exists item. by apply item_at_Some.
Qed.

(** A mutation of the snapshot object alone changes no item and no array. *)
Lemma same_data_apply_top_level m s h props :
  top_level m = true → cells h !! s = Some (CObject props) →
  same_data h (apply m s h) ∧ next (apply m s h) = next h.
Proof.
  intros Htop Hs. destruct m; try done; cbn [apply]; split; try done;
    by eapply same_data_store_object.
Qed.
Lemma same_data_sym h h' : same_data h h' → same_data h' h.
Proof. intros Hsame l. by destruct (Hsame l) as [-> ->]. Qed.

(** Heaps with the same items and arrays, and the same properties in the
    snapshot of [c], show the same through [getState] and to subscribers. *)
Lemma observe_same_data c h h' :
  same_data h h' → next h = next h' →
  object_at h (state c) = object_at h' (state c) →
  observe c h = observe c h'.
Proof.
  intros Hsame Hnext Hobj. unfold observe, getState.
  change (view (alloc (CObject (object_at h (state c))) h).2 (next h) =
          view (alloc (CObject (object_at h' (state c))) h').2 (next h')).
  apply view_same_data.
  - by apply same_data_alloc_object.
  - by rewrite !object_at_alloc.
Qed.

Lemma notified_same_data newState c h h' :
  same_data h h' → next h = next h' →
  object_at h (state c) = object_at h' (state c) →
  notified newState c h = notified newState c h'.
Proof.
  intros Hsame Hnext Hobj. unfold notified, setState.
  change (view (alloc (CObject (newState ∪ object_at h (state c))) h).2 (next h) =
          view (alloc (CObject (newState ∪ object_at h' (state c))) h').2 (next h')).
  apply view_same_data.
  - by apply same_data_alloc_object.
  - rewrite !object_at_alloc. by rewrite Hobj.
Qed.
End HeapSharing.

(** ** The cart by reference and the cart by value *)

Section Find.
Context {A B : Type} (P : A → Prop) (Q : B → Prop) (R : A → B → Prop).
Context `{!∀ x, Decision (P x)} `{!∀ y, Decision (Q y)}.

Lemma list_find_Forall2 l k :
  Forall2 R l k → (∀ x y, R x y → (P x ↔ Q y)) →
  match list_find P l, list_find Q k with
  | Some (i, x), Some (j, y) => i = j ∧ R x y
  | None, None => True
  | _, _ => False
  end.
Proof.
  intros HF HPQ. induction HF as [|x y l k Hxy HF IH]; [done|].
  cbn. destruct (decide (P x)) as [HP|HP], (decide (Q y)) as [HQ|HQ].
  - done.
  - destruct HQ. by apply (HPQ x y).
  - destruct HP. by apply (HPQ x y).
  - destruct (list_find P l) as [[i x']|], (list_find Q k) as [[j y']|]; cbn; try done.
    destruct IH as [-> ?]. done.
Qed.

Lemma Forall2_filter l k :
  Forall2 R l k → (∀ x y, R x y → (P x ↔ Q y)) →
  Forall2 R (filter P l) (filter Q k).
Proof.
  intros HF HPQ. induction HF as [|x y l k Hxy HF IH]; [constructor|].
  rewrite !filter_cons.
  destruct (decide (P x)) as [HP|HP], (decide (Q y)) as [HQ|HQ].
  - by constructor.
  - destruct HQ. by apply (HPQ x y).
  - destruct HP. by apply (HPQ x y).
  - done.
Qed.
End Find.

Section Refinement.
Import Heap.
Context {O : Type}.

Lemma omap_item_at h elems items :
  Forall2 (holds h) elems items → omap (item_at h) elems = items.
Proof.
  induction 1 as [|l item elems items Hl HF IH]; [done|].
  cbn [omap list_omap]. unfold item_at at 1. rewrite Hl. by rewrite IH.
Qed.

Lemma items_at_holds h a elems items :
  cells h !! a = Some (CArray elems) → Forall2 (holds h) elems items →
  items_at h a = items.
Proof.
  intros Ha HF. unfold items_at, array_at. rewrite Ha. by apply omap_item_at.
Qed.

Lemma holds_ext h h' elems items :
  Forall2 (holds h) elems items →
  (∀ l, l ∈ elems → cells h' !! l = cells h !! l) →
  Forall2 (holds h') elems items.
Proof.
  induction 1 as [|l item elems items Hl HF IH]; intros Hext; [constructor|].
  constructor.
  - unfold holds. rewrite Hext; [done|left].
  - apply IH. intros l' Hl'. apply Hext. by right.
Qed.

Lemma holds_cell h elems items l :
  Forall2 (holds h) elems items → l ∈ elems → ∃ item, cells h !! l = Some (CItem item).
Proof.
  intros HF [i Hi]%list_elem_of_lookup_1.
  destruct (Forall2_lookup_l _ _ _ _ _ HF Hi) as (item & _ & Hitem). by exists item.
Qed.

Lemma cell_lt h l cl : free_past_next h → cells h !! l = Some cl → (l < next h)%nat.
Proof.
  intros Hfree Hl. destruct (decide (l < next h)%nat) as [|Hge]; [done|].
  rewrite Hfree in Hl by lia. done.
Qed.

Lemma union_two_keys {V} (v1 v2 : V) (old : gmap string V) :
  two_keys old →
  ({[ "items" := v1; "totalPrice" := v2 ]} : gmap string V) ∪ old
  = {[ "items" := v1; "totalPrice" := v2 ]}.
Proof.
  intros [->|(w1 & w2 & ->)]; [by rewrite (right_id_L ∅ (∪))|].
  apply map_eq. intros k. rewrite lookup_union.
  destruct (decide (k = "items")) as [->|Hk1]; [by simplify_map_eq|].
  destruct (decide (k = "totalPrice")) as [->|Hk2]; by simplify_map_eq.
Qed.

Lemma stands_for_two_keys (hc : Cart O) h c :
  stands_for hc h c →
  two_keys (object_at h (state hc)) ∧ two_keys (Base.state (Cart.base c)).
Proof.
  intros (_ & _ & _ & _ & _ & [[-> ->]|(a & -> & _ & ->)]).
  - split; by left.
  - split; right; eauto.
Qed.

Lemma publish_eq (hc : Cart O) h :
  publish hc h =
    ({| state := next h; observers := observers hc;
        calls := calls hc ++ ((λ observer, (observer, next h)) <$> observers hc);
        items := items hc;
        totalPrice := Cart.total_of (items_at h (items hc)) |},
     (alloc (CObject ({[ "items" := VRef (items hc);
                         "totalPrice" := VNumber (Cart.total_of (items_at h (items hc))) ]}
                      ∪ object_at h (state hc))) h).2).
Proof. done. Qed.

(** [publish] after the items of both carts have been brought in line. *)
Lemma stands_for_publish (hc : Cart O) h (c : Cart.Cart O) elems items' :
  cells h !! items hc = Some (CArray elems) →
  NoDup elems →
  Forall2 (holds h) elems items' →
  observers hc = Base.observers (Cart.base c) →
  (state hc < next h)%nat →
  free_past_next h →
  two_keys (object_at h (state hc)) →
  two_keys (Base.state (Cart.base c)) →
  stands_for (publish hc h).1 (publish hc h).2
             (Cart.publish (Cart.calculateTotal (Cart.with_items items' c))).
Proof.
  intros Ha Hnd HF Hobs Hs Hfree Hk1 Hk2.
  pose proof (items_at_holds h _ _ _ Ha HF) as Hitems.
  assert (items hc ≠ next h) as Hane.
  { intros Heq. rewrite Heq, Hfree in Ha by lia. done. }
  rewrite publish_eq. cbn [fst snd].
  set (h' := (alloc _ h).2).
  assert (∀ l, l ≠ next h → cells h' !! l = cells h !! l) as Hcells.
  { intros l Hl. unfold h', alloc; cbn. by rewrite lookup_insert_ne. }
  assert (Forall2 (holds h') elems items') as HF'.
  { eapply holds_ext; [exact HF|]. intros l Hl.
    destruct (holds_cell _ _ _ _ HF Hl) as [item Hitem].
    apply Hcells. intros Heq. rewrite Heq, Hfree in Hitem by lia. done. }
  assert (cells h' !! items hc = Some (CArray elems)) as Ha'.
  { by rewrite Hcells. }
  unfold stands_for. cbn [state observers items totalPrice].
  split_and!.
  - exists elems. split_and!; [exact Ha'|done|exact HF'].
  - cbn. by rewrite Hitems.
  - cbn. done.
  - unfold h'. cbn. lia.
  - intros l Hl. unfold h' in *. cbn in Hl. rewrite Hcells by lia. apply Hfree. lia.
  - right. exists (items hc). split_and!.
    + unfold h'. rewrite object_at_alloc.
      cbn [Cart.totalPrice Cart.publish Cart.calculateTotal Cart.with_items Cart.items].
      rewrite Hitems. by apply union_two_keys.
    + by apply items_at_holds with elems.
    + cbn. by apply union_two_keys.
Qed.
Lemma holds_item_at h l item : holds h l item → item_at h l = Some item.
Proof. unfold holds, item_at. by intros ->. Qed.

Lemma array_at_cell h a elems : cells h !! a = Some (CArray elems) → array_at h a = elems.
Proof. unfold array_at. by intros ->. Qed.

Lemma stands_for_addItem product (hc : Cart O) h (c : Cart.Cart O) :
  stands_for hc h c →
  stands_for (addItem product hc h).1 (addItem product hc h).2 (Cart.addItem product c).
Proof.
  intros Hsf. destruct (stands_for_two_keys _ _ _ Hsf) as [Hk1 Hk2].
  destruct Hsf as ((elems & Ha & Hnd & HF) & Htot & Hobs & Hs & Hfree & _).
  unfold addItem, Cart.addItem. rewrite (array_at_cell _ _ _ Ha).
  set (P := λ l, Cart.name <$> item_at h l = Some (Cart.p_name product)).
  set (Q := λ item, Cart.name item = Cart.p_name product).
  assert (∀ l item, holds h l item → P l ↔ Q item) as Hequiv.
  { intros l' item' Hh. unfold P, Q. rewrite (holds_item_at _ _ _ Hh). cbn.
    split; [by intros [=]|by intros ->]. }
  pose proof (list_find_Forall2 P Q (holds h) elems (Cart.items c) HF Hequiv) as Hfind.
  destruct (list_find P elems) as [[i l]|] eqn:Hfl;
    destruct (list_find Q (Cart.items c)) as [[j x]|] eqn:Hfc; try done.
  - destruct Hfind as [<- Hlx].
    rewrite (holds_item_at _ _ _ Hlx).
    apply list_find_Some in Hfl as (Hil & _ & _).
    apply list_find_Some in Hfc as (Hix & _ & _).
    set (x' := {| Cart.name := Cart.name x; Cart.price := Cart.price x;
                  Cart.quantity := Cart.incr (Cart.quantity x) |}).
    assert (l ≠ items hc) as Hla.
    { intros ->. unfold holds in Hlx. rewrite Ha in Hlx. done. }
    apply stands_for_publish with elems.
    + unfold store; cbn. by rewrite lookup_insert_ne.
    + done.
    + apply Forall2_same_length_lookup_2.
      { rewrite length_insert. by eapply Forall2_length. }
      intros k lk y Hk Hy. unfold holds, store; cbn.
      destruct (decide (k = i)) as [->|Hki].
      * rewrite Hil in Hk. injection Hk as <-.
        rewrite list_lookup_insert_eq in Hy by (by eapply lookup_lt_Some).
        injection Hy as <-. apply lookup_insert_eq.
      * rewrite list_lookup_insert_ne in Hy by done.
        rewrite lookup_insert_ne.
        { by eapply (Forall2_lookup_lr _ _ _ _ _ _ HF). }
        intros ->. apply Hki. symmetry. by eapply NoDup_lookup.
    + done.
    + done.
    + intros l' Hl'. unfold store; cbn. cbn in Hl'.
      rewrite lookup_insert_ne; [by apply Hfree|].
      intros ->. unfold holds in Hlx. rewrite Hfree in Hlx by done. done.
    + rewrite object_at_store_item; [done|]. by exists x.
    + done.
  - clear Hfind.
    set (new := {| Cart.name := Cart.p_name product; Cart.price := Cart.p_price product;
                   Cart.quantity := 1 |}).
    assert (items hc < next h)%nat as Halt by (by eapply cell_lt).
    assert (items hc ≠ next h) as Hane by lia.
    assert (∀ l', l' ∈ elems → l' ≠ next h ∧ l' ≠ items hc) as Helems.
    { intros l' Hl'. destruct (holds_cell _ _ _ _ HF Hl') as [item Hitem]. split.
      - intros ->. rewrite Hfree in Hitem by lia. done.
      - intros ->. rewrite Ha in Hitem. done. }
    cbn [alloc]. apply stands_for_publish with (elems ++ [next h]).
    + unfold store; cbn. apply lookup_insert_eq.
    + apply NoDup_app. split_and!; [done| |apply NoDup_singleton].
      intros l' Hl' ->%list_elem_of_singleton. by destruct (Helems _ Hl').
    + apply Forall2_app.
      * eapply holds_ext; [exact HF|]. intros l' Hl'. destruct (Helems _ Hl').
        unfold store; cbn. by rewrite !lookup_insert_ne.
      * constructor; [|constructor]. unfold holds, store; cbn.
        rewrite lookup_insert_ne by done. apply lookup_insert_eq.
    + done.
    + unfold store; cbn. lia.
    + intros l' Hl'. unfold store in *; cbn in *.
      rewrite !lookup_insert_ne by lia. apply Hfree. lia.
    + rewrite object_at_store_array.
      * unfold object_at; cbn. rewrite lookup_insert_ne by lia. exact Hk1.
      * exists elems. cbn. by rewrite lookup_insert_ne.
    + done.
Qed.
Lemma stands_for_removeItem productName (hc : Cart O) h (c : Cart.Cart O) :
  stands_for hc h c →
  stands_for (removeItem productName hc h).1 (removeItem productName hc h).2
             (Cart.removeItem productName c).
Proof.
  intros Hsf. destruct (stands_for_two_keys _ _ _ Hsf) as [Hk1 Hk2].
  destruct Hsf as ((elems & Ha & Hnd & HF) & Htot & Hobs & Hs & Hfree & _).
  unfold removeItem, Cart.removeItem. rewrite (array_at_cell _ _ _ Ha). cbn [alloc].
  set (P := λ l, Cart.name <$> item_at h l ≠ Some productName).
  set (Q := λ item, Cart.name item ≠ productName).
  assert (∀ l item, holds h l item → P l ↔ Q item) as Hequiv.
  { intros l' item' Hh. unfold P, Q. rewrite (holds_item_at _ _ _ Hh). cbn.
    split; intros Hne Heq; apply Hne; congruence. }
  apply (stands_for_publish _ _ c (filter P elems)); cbn [items state observers].
  - cbn. apply lookup_insert_eq.
  - by apply NoDup_filter.
  - eapply holds_ext; [by apply Forall2_filter|].
    intros l' [_ Hl']%list_elem_of_filter.
    destruct (holds_cell _ _ _ _ HF Hl') as [item Hitem].
    cbn. apply lookup_insert_ne. intros <-. rewrite Hfree in Hitem by lia. done.
  - done.
  - cbn. lia.
  - intros l' Hl'. cbn in *. rewrite lookup_insert_ne by lia. apply Hfree. lia.
  - unfold object_at; cbn. rewrite lookup_insert_ne by lia. exact Hk1.
  - done.
Qed.

Lemma stands_for_clearCart (hc : Cart O) h (c : Cart.Cart O) :
  stands_for hc h c →
  stands_for (clearCart hc h).1 (clearCart hc h).2 (Cart.clearCart c).
Proof.
  intros Hsf. destruct (stands_for_two_keys _ _ _ Hsf) as [Hk1 Hk2].
  destruct Hsf as (_ & _ & Hobs & Hs & Hfree & _).
  unfold clearCart, setState, stands_for. cbn.
  split_and!.
  - exists []. split_and!; [|apply NoDup_nil_2|constructor].
    rewrite !lookup_insert_ne by lia. apply lookup_insert_eq.
  - done.
  - done.
  - lia.
  - intros l Hl. cbn in Hl |- *. rewrite !lookup_insert_ne by lia. apply Hfree. lia.
  - right. exists (S (next h)). split_and!.
    + unfold object_at; cbn. rewrite lookup_insert_eq.
      apply union_two_keys.
      rewrite !lookup_insert_ne by lia. exact Hk1.
    + unfold items_at, array_at; cbn.
      rewrite lookup_insert_ne by lia. by rewrite lookup_insert_eq.
    + by apply union_two_keys.
Qed.

Lemma stands_for_new :
  stands_for (O := O) (new (O := O) empty).1 (new (O := O) empty).2 Cart.new.
Proof.
  unfold stands_for. cbn. split_and!.
  - exists []. split_and!; [done|apply NoDup_nil_2|constructor].
  - done.
  - done.
  - lia.
  - intros l Hl. cbn in Hl |- *. rewrite !lookup_insert_ne by lia. done.
  - left. split; [|done]. unfold object_at; cbn.
    rewrite lookup_insert_ne by lia. by rewrite lookup_insert_eq.
Qed.

Lemma stands_for_run (ops : list Cart.op) :
  stands_for (O := O) (run ops (new (O := O) empty)).1 (run ops (new (O := O) empty)).2
             (Cart.run ops Cart.new).
Proof.
  unfold run, Cart.run. induction ops as [|o ops IH] using rev_ind.
  - apply stands_for_new.
  - rewrite !foldl_app. cbn [foldl]. destruct o; cbn [step Cart.step].
    + by apply stands_for_addItem.
    + by apply stands_for_removeItem.
    + by apply stands_for_clearCart.
Qed.

Lemma same_data_alloc_fresh h props :
  free_past_next h → same_data h (alloc (CObject props) h).2.
Proof.
  intros Hfree l. unfold item_at, array_at, alloc; cbn.
  destruct (decide (next h = l)) as [<-|Hne].
  - by rewrite lookup_insert_eq, Hfree.
  - by rewrite lookup_insert_ne.
Qed.

(** What a cart that stands for another shows. *)
Lemma stands_for_observe (hc : Cart O) h (c : Cart.Cart O) :
  stands_for hc h c →
  items_at h (items hc) = Cart.items c ∧
  totalPrice hc = Cart.totalPrice c ∧
  getItemCount hc h = Cart.getItemCount c ∧
  observe hc h = seen_of <$> Base.getState (Cart.base c).
Proof.
  intros ((elems & Ha & Hnd & HF) & Htot & Hobs & Hs & Hfree & Hstate).
  pose proof (items_at_holds _ _ _ _ Ha HF) as Hitems.
  split_and!; [done|done| |].
  - unfold getItemCount, Cart.getItemCount. by rewrite Hitems.
  - unfold observe, getState, Base.getState.
    change (view (alloc (CObject (object_at h (state hc))) h).2 (next h) =
            seen_of <$> Base.state (Cart.base c)).
    rewrite (view_same_data _ h (next h) (state hc)).
    + destruct Hstate as [[Ho ->]|(a & Ho & Ha' & ->)]; unfold view; rewrite Ho.
      * by rewrite !fmap_empty.
      * rewrite !fmap_insert, !map_fmap_singleton. cbn. by rewrite Ha'.
    + by apply same_data_sym, same_data_alloc_fresh.
    + by rewrite object_at_alloc.
Qed.
End Refinement.

(** X1: the cart kept by value, used for the properties of the cart, and
    the cart kept by reference agree after every sequence of calls on a new
    cart: same items in the same order, same total, same item count, and the
    snapshot [getState()] returns shows, read through its references, the
    values of the snapshot kept by value. *)
Theorem heap_cart_refines_cart {O} (ops : list Cart.op) :
  let hc : Heap.Cart O := (Heap.run ops (Heap.new Heap.empty)).1 in
  let h := (Heap.run (O := O) ops (Heap.new Heap.empty)).2 in
  let c : Cart.Cart O := Cart.run ops Cart.new in
  Heap.items_at h (Heap.items hc) = Cart.items c ∧
  Heap.totalPrice hc = Cart.totalPrice c ∧
  Heap.getItemCount hc h = Cart.getItemCount c ∧
  Heap.observe hc h = seen_of <$> Base.getState (Cart.base c).
Proof. intros hc h c. apply stands_for_observe, stands_for_run. Qed.

(** C4, as stated, fails: after one [addItem], the [items] property of the
    object [getState()] returns is the very array the cart works on; pushing
    an item on it changes what the next [getState()] shows, what subscribers
    are shown, and the cart's item count. *)
Lemma getState_shares_the_items_array :
  let lamp1 := {| Cart.name := lamp; Cart.price := str "199.99"; Cart.quantity := 1 |} in
  let shade1 := {| Cart.name := shade; Cart.price := str "10"; Cart.quantity := 1 |} in
  let '(c0, h0) := Heap.new (O := unit) Heap.empty in
  let '(c, h) := Heap.addItem {| Cart.p_name := lamp; Cart.p_price := str "199.99" |} c0 h0 in
  let '(s, h1) := Heap.getState c h in
  let h2 := Heap.apply (Heap.Push "items" shade1) s h1 in
  Heap.allocated c h ∧
  Heap.observe c h1 !! "items" = Some (Heap.SItems [lamp1]) ∧
  Heap.observe c h2 !! "items" = Some (Heap.SItems [lamp1; shade1]) ∧
  Heap.observe c h2 ≠ Heap.observe c h1 ∧
  Heap.notified ∅ c h2 ≠ Heap.notified ∅ c h1 ∧
  Heap.getItemCount c h1 = of_Z 1 ∧
  Heap.getItemCount c h2 = of_Z 2.
Proof.
  vm_compute. split_and!; try reflexivity;
    try (intros Heq; discriminate Heq); repeat constructor.
Qed.

(** C4 (amended): [getState()] returns a new object, different from the
    component's snapshot object, holding the same property values (numbers,
    and references to the same arrays). Whatever the caller does through it,
    the property values of the component's snapshot stay what they were; and
    if the caller only assigns or deletes properties of the returned object,
    later [getState()] calls and later subscriber notifications show what
    they would have shown. Arrays and items reached through the returned
    object are shared with the component and are not covered. *)
Theorem getState_copies_one_level {O} (c : Heap.Cart O) (h : Heap.heap)
    (m : Heap.mutation) (newState : gmap string Heap.value) :
  Heap.allocated c h →
  let s := (Heap.getState c h).1 in
  let h1 := (Heap.getState c h).2 in
  s ≠ Heap.state c ∧
  Heap.object_at h1 s = Heap.object_at h (Heap.state c) ∧
  Heap.object_at (Heap.apply m s h1) (Heap.state c) = Heap.object_at h (Heap.state c) ∧
  (Heap.top_level m = true →
   Heap.observe c (Heap.apply m s h1) = Heap.observe c h1 ∧
   Heap.notified newState c (Heap.apply m s h1) = Heap.notified newState c h1).
Proof.
  intros [Hstate _] s h1.
  assert (s = Heap.next h) as Hs by done.
  assert (s ≠ Heap.state c) as Hne by lia.
  assert (Heap.object_at h1 (Heap.state c) = Heap.object_at h (Heap.state c)) as Hkeep.
  { apply object_at_alloc_ne. lia. }
  assert (Heap.object_at (Heap.apply m s h1) (Heap.state c)
          = Heap.object_at h (Heap.state c)) as Hobj.
  { rewrite object_at_apply; [done|done|]. cbn. lia. }
  split_and!; [done| |done|].
  - subst s h1. unfold Heap.getState. by rewrite object_at_alloc.
  - intros Htop.
    destruct (same_data_apply_top_level m s h1 (Heap.object_at h (Heap.state c)) Htop)
      as [Hsame Hnext].
    { subst s h1. unfold Heap.getState, Heap.alloc; cbn. apply lookup_insert_eq. }
    split.
    + apply observe_same_data; [by apply same_data_sym|done|by rewrite Hobj, Hkeep].
    + apply notified_same_data; [by apply same_data_sym|done|by rewrite Hobj, Hkeep].
Qed.

Lemma getState_copies_one_level_witness :
  let c := sample_heap_cart.1 in
  let h := sample_heap_cart.2 in
  let s := (Heap.getState c h).1 in
  let h1 := (Heap.getState c h).2 in
  let h2 := Heap.apply (Heap.SetProp "totalPrice" (Heap.VNumber zero)) s h1 in
  Heap.allocated c h ∧
  Heap.object_at h1 s !! "totalPrice" = Some (Heap.VNumber (parseFloat (str "199.99"))) ∧
  Heap.object_at h2 s !! "totalPrice" = Some (Heap.VNumber zero) ∧
  Heap.observe c h2 = Heap.observe c h1.
Proof.
  cbv zeta.
  assert (Heap.allocated sample_heap_cart.1 sample_heap_cart.2) as Halloc
    by (vm_compute; split; repeat constructor).
  split_and!; [exact Halloc|vm_compute; reflexivity|vm_compute; reflexivity|].
  destruct (getState_copies_one_level sample_heap_cart.1 sample_heap_cart.2
              (Heap.SetProp "totalPrice" (Heap.VNumber zero)) ∅ Halloc)
    as (_ & _ & _ & Htop).
  destruct (Htop eq_refl) as [Hobs _]. exact Hobs.
Defined.
